(** * Beach crowd estimation: tiling, detection merging, pixel-density
      fallback and busyness scoring

    A shallow embedding of the algorithmic core of the detector scripts
    ([beach-detector.py], [pi-detector.py], [yolo-detector.py] and
    [pixel-density-analyzer.py]) together with the properties the
    specification states about them.

    Conventions of the embedding.
    - Python [float] values are idealised as exact rationals ([Q]); every
      concrete input used below stays well away from any point where binary
      rounding could change a comparison or a truncation.
    - Python [int] values are [Z]; list positions are [nat].
    - A raised exception is an explicit [Raise] result.
    - The pretrained detector, OpenCV and the file system are external
      collaborators: their answers are inputs of the embedded functions. *)

From Stdlib Require Import ZArith QArith Qround Qabs Qminmax Lia Lqa Bool String List.
From Stdlib Require Import Permutation Sorted.
Import ListNotations.

Open Scope Q_scope.

(** ** Python numeric primitives *)

Module PyNum.

(** [int(x)] on a float: truncation toward zero. *)
Definition py_int (x : Q) : Z := Z.quot (Qnum x) (Zpos (Qden x)).

(** [round(x)]: nearest integer, exact halves go to the even neighbour. *)
Definition py_round (x : Q) : Z :=
  let f := Qfloor x in
  match Qcompare (x - inject_Z f) 0.5 with
  | Lt => f
  | Gt => (f + 1)%Z
  | Eq => if Z.even f then f else (f + 1)%Z
  end.

(** [round(x, 2)]. *)
Definition py_round2 (x : Q) : Q := inject_Z (py_round (x * 100)) / 100.

(** Outcome of a call that may raise. *)
Inductive result (A : Type) : Type :=
| Return (a : A)
| Raise (exn : string).
Arguments Return {A} a.
Arguments Raise {A} exn.

Definition bind {A B} (r : result A) (k : A -> result B) : result B :=
  match r with
  | Return a => k a
  | Raise e => Raise e
  end.

(** A nearest integer of [x] is at distance at most one half. *)
Definition nearest_integer (x : Q) (z : Z) : Prop := Qabs (x - inject_Z z) <= 0.5.

End PyNum.
Import PyNum.

(** ** Busyness scorer ([pi-detector.py], [calculate_busyness]) *)

Module Busyness.

Inductive Level : Type := quiet | moderate | busy | very_busy.

Record BusynessResult : Type := {
  score : Z;
  level : Level;
  density : Q
}.

(** The score and level of a density, as the four branches compute them. *)
Definition score_level (density : Q) : Z * Level :=
  if Qle_bool density 0.5 then
    (py_int ((density / 0.5) * 25), quiet)
  else if Qle_bool density 2.0 then
    (py_int (25 + ((density - 0.5) / 1.5) * 25), moderate)
  else if Qle_bool density 4.0 then
    (py_int (50 + ((density - 2.0) / 2.0) * 25), busy)
  else
    (Z.min 100 (py_int (75 + ((density - 4.0) / 4.0) * 25)), very_busy).

Definition calculate_busyness (person_count : Z) (beach_area_sqm : Q)
  : result BusynessResult :=
  if Qeq_bool beach_area_sqm 0 then Raise "ZeroDivisionError"
  else
    let density := (inject_Z person_count / beach_area_sqm) * 100 in
    let '(score, level) := score_level density in
    Return {| score := score; level := level; density := py_round2 density |}.


Definition spec_density (person_count : Z) (reference_area : Q) : Q :=
  (inject_Z person_count / reference_area) * 100.

End Busyness.

(** ** Pixel-statistics fallback ([pixel-density-analyzer.py]) *)

Module PixelDensity.

(** What OpenCV reports for a decoded image: its shape and the number of
    non-zero pixels of each mask. *)
Record PixelCounts : Type := {
  height : Z;
  width : Z;
  skin_pixels : Z;
  bright_pixels : Z;
  edge_pixels : Z;
  activity_pixels : Z
}.

Record Estimate : Type := {
  total_persons : Z;
  confidence : Q;
  weighted_activity : Q
}.

Inductive Analysis : Type :=
| Success (e : Estimate)
| Failure (error : string).

Definition percentage (pixels total_pixels : Z) : Q :=
  (inject_Z pixels / inject_Z total_pixels) * 100.

Definition avg_person_pixel_percentage : Q := 1.0.

(** Step 5 of [analyze_pixel_density]: the person estimate from the three
    percentages. *)
Definition estimate_persons (skin_percentage bright_percentage edge_percentage : Q)
  : Z :=
  let weighted_activity :=
    (skin_percentage * 0.6) + (bright_percentage * 0.25) + (edge_percentage * 0.15) in
  let estimated_persons := py_int (weighted_activity / avg_person_pixel_percentage) in
  Z.max 0 (Z.min estimated_persons 500).

(** The confidence, from the strength of the skin and colour signals. *)
Definition estimate_confidence (skin_percentage bright_percentage : Q) : Q :=
  let signal_strength := (skin_percentage + bright_percentage) / 2 in
  if negb (Qle_bool 1.0 signal_strength) then 0.3
  else if negb (Qle_bool 3.0 signal_strength) then 0.5
  else if negb (Qle_bool 6.0 signal_strength) then 0.7
  else 0.85.

(** [path_exists] is the answer of [os.path.exists], [img] that of
    [cv2.imread] followed by the mask computations ([None] when the file
    does not decode).  A zero pixel total makes the first percentage raise
    [ZeroDivisionError], which the [except] clause turns into a failure.
    [beach_area_sqm] is only echoed and [save_debug] only writes files, so
    both are left out. *)
Definition analyze_pixel_density (image_path : string) (path_exists : bool)
  (img : option PixelCounts) : Analysis :=
  if negb path_exists then Failure ("Image not found: " ++ image_path)%string
  else match img with
  | None => Failure ("Failed to load image: " ++ image_path)%string
  | Some c =>
    let total_pixels := (height c * width c)%Z in
    if (total_pixels =? 0)%Z then Failure "division by zero"
    else
      let skin_percentage := percentage (skin_pixels c) total_pixels in
      let bright_percentage := percentage (bright_pixels c) total_pixels in
      let edge_percentage := percentage (edge_pixels c) total_pixels in
      Success {|
        total_persons :=
          estimate_persons skin_percentage bright_percentage edge_percentage;
        confidence := estimate_confidence skin_percentage bright_percentage;
        weighted_activity :=
          (skin_percentage * 0.6) + (bright_percentage * 0.25)
          + (edge_percentage * 0.15)
      |}
  end.





End PixelDensity.

(** ** Tiling engine ([beach-detector.py] and [pi-detector.py], [slice_image]) *)

Module Tiling.

(** One slice: the window [image[y_start:y_end, x_start:x_end]]; its
    recorded offset is [(x_start, y_start)]. *)
Record Tile : Type := {
  x_start : Z;
  y_start : Z;
  x_end : Z;
  y_end : Z
}.

Definition offset (t : Tile) : Z * Z := (x_start t, y_start t).

Fixpoint range_from (n : nat) (start step : Z) : list Z :=
  match n with
  | O => []
  | S k => start :: range_from k (start + step) step
  end.

(** Number of elements of [range(start, stop, step)] for a non-zero step. *)
Definition range_len (start stop step : Z) : Z :=
  if (0 <? step)%Z then
    if (start <? stop)%Z then ((stop - start - 1) / step + 1)%Z else 0%Z
  else
    if (stop <? start)%Z then ((start - stop - 1) / (- step) + 1)%Z else 0%Z.

(** [range(start, stop, step)], which rejects a zero step. *)
Definition py_range (start stop step : Z) : result (list Z) :=
  if (step =? 0)%Z then Raise "ValueError"
  else Return (range_from (Z.to_nat (range_len start stop step)) start step).

(** The positions [range(0, stop, step)] walks for [stop >= 1] and a positive
    step. *)
Definition steps (stop step : Z) : list Z :=
  range_from (Z.to_nat ((stop - 1) / step + 1)) 0 step.

(** A [for] loop whose body may raise and otherwise appends to [slices]. *)
Fixpoint for_each {A B : Type} (l : list A) (body : A -> result (list B))
  : result (list B) :=
  match l with
  | [] => Return []
  | a :: rest =>
    bind (body a) (fun out =>
    bind (for_each rest body) (fun outs => Return (out ++ outs)))
  end.

Definition stride_of (slice_size : Z) (overlap : Q) : Z :=
  py_int (inject_Z slice_size * (1 - overlap)).

Definition make_tile (w h slice_size x y : Z) : Tile :=
  let x_end := Z.min (x + slice_size) w in
  let y_end := Z.min (y + slice_size) h in
  let x_start := Z.max 0 (x_end - slice_size) in
  let y_start := Z.max 0 (y_end - slice_size) in
  {| x_start := x_start; y_start := y_start; x_end := x_end; y_end := y_end |}.

(** [h] and [w] are [image.shape[:2]]. *)
Definition slice_image (h w : Z) (slice_size : Z) (overlap : Q)
  : result (list Tile) :=
  let stride := stride_of slice_size overlap in
  bind (py_range 0 h stride) (fun ys =>
  for_each ys (fun y =>
    bind (py_range 0 w stride) (fun xs =>
    Return (map (fun x => make_tile w h slice_size x y) xs)))).

Definition covers (t : Tile) (x y : Z) : Prop :=
  (x_start t <= x < x_end t)%Z /\ (y_start t <= y < y_end t)%Z.

End Tiling.

(** ** Detection merger ([beach-detector.py] [merge_detections],
       [pi-detector.py] [nms_merge]) *)

Module Nms.

Record BBox : Type := { x1 : Q; y1 : Q; x2 : Q; y2 : Q }.

Record Detection : Type := {
  bbox : BBox;
  confidence : Q;
  class_label : string
}.

(** A float64 cell of a NumPy array: finite, infinite or not-a-number. *)
Inductive npfloat : Type :=
| Fin (q : Q)
| PosInf
| NegInf
| NaN.

(** NumPy's [/] on floats: a zero divisor gives an infinity or [nan]. *)
Definition np_div (a b : Q) : npfloat :=
  if Qeq_bool b 0 then
    if Qeq_bool a 0 then NaN
    else if Qle_bool 0 a then PosInf else NegInf
  else Fin (a / b).

(** [v <= t] for a finite [t]; comparisons with [nan] are false. *)
Definition np_le (v : npfloat) (t : Q) : bool :=
  match v with
  | Fin q => Qle_bool q t
  | NegInf => true
  | PosInf | NaN => false
  end.

(** [v > t]. *)
Definition np_gt (v : npfloat) (t : Q) : bool :=
  match v with
  | Fin q => negb (Qle_bool q t)
  | PosInf => true
  | NegInf | NaN => false
  end.

(** [v < t]. *)
Definition np_lt (v : npfloat) (t : Q) : bool :=
  match v with
  | Fin q => negb (Qle_bool t q)
  | NegInf => true
  | PosInf | NaN => false
  end.

Definition zero_box : BBox := {| x1 := 0; y1 := 0; x2 := 0; y2 := 0 |}.

Definition area (b : BBox) : Q := (x2 b - x1 b) * (y2 b - y1 b).

Definition inter_area (bi bj : BBox) : Q :=
  let xx1 := Qmax (x1 bi) (x1 bj) in
  let yy1 := Qmax (y1 bi) (y1 bj) in
  let xx2 := Qmin (x2 bi) (x2 bj) in
  let yy2 := Qmin (y2 bi) (y2 bj) in
  let w := Qmax 0 (xx2 - xx1) in
  let h := Qmax 0 (yy2 - yy1) in
  w * h.

(** The overlap of the kept box [bi] with a candidate [bj], as the loop body
    computes it. *)
Definition iou (bi bj : BBox) : npfloat :=
  let inter := inter_area bi bj in
  let area_i := area bi in
  let area_rest := area bj in
  np_div inter (area_i + area_rest - inter + 1e-6).

Section Arrays.

Variable boxes : list BBox.
Variable scores : list Q.

Definition box_at (i : nat) : BBox := nth i boxes zero_box.
Definition score_at (i : nat) : Q := nth i scores 0.

(** One step of the insertion sort on positions: [i] goes behind every
    position whose score is not larger. *)
Fixpoint insert (i : nat) (sorted : list nat) : list nat :=
  match sorted with
  | [] => [i]
  | j :: rest =>
    if Qle_bool (score_at j) (score_at i) then j :: insert i rest
    else i :: j :: rest
  end.

(** [scores.argsort()]: positions by ascending score.  Equal scores stay in
    input order, as the insertion sort NumPy runs on short arrays leaves
    them. *)
Definition argsort : list nat :=
  fold_left (fun sorted i => insert i sorted) (seq 0 (length scores)) [].

(** The [while] loop, one iteration per unit of fuel; [order] never needs
    more than its length. *)
Fixpoint nms_loop (iou_threshold : Q) (fuel : nat) (order : list nat) : list nat :=
  match fuel with
  | O => []
  | S fuel' =>
    match order with
    | [] => []
    | i :: rest =>
      match rest with
      | [] => [i]
      | _ :: _ =>
        i :: nms_loop iou_threshold fuel'
               (filter (fun j => np_le (iou (box_at i) (box_at j)) iou_threshold)
                       rest)
      end
    end
  end.

End Arrays.

Definition no_detection : Detection :=
  {| bbox := zero_box; confidence := 0; class_label := EmptyString |}.

(** A detection of class "person" with box [(a, b, c, d)] and confidence
    [s]. *)
Definition person (a b c d s : Q) : Detection :=
  {| bbox := {| x1 := a; y1 := b; x2 := c; y2 := d |};
     confidence := s; class_label := "person" |}.

(** [order = scores.argsort()[::-1]]: the positions in the order in which
    the loop considers them. *)
Definition processing_order (all_detections : list Detection) : list nat :=
  rev (argsort (map confidence all_detections)).

(** Positions kept by the merger, in the order in which they are kept. *)
Definition kept_indices (all_detections : list Detection) (iou_threshold : Q)
  : list nat :=
  let boxes := map bbox all_detections in
  let order := processing_order all_detections in
  nms_loop boxes iou_threshold (length order) order.

Definition merge_detections (all_detections : list Detection) (iou_threshold : Q)
  : list Detection :=
  match all_detections with
  | [] => []
  | _ :: _ =>
    map (fun i => nth i all_detections no_detection)
        (kept_indices all_detections iou_threshold)
  end.

(** [pi-detector.py] carries a line-for-line copy under another name. *)
Definition nms_merge (detections : list Detection) (iou_threshold : Q)
  : list Detection :=
  merge_detections detections iou_threshold.

(** [max(confidences)] for a non-empty list, [0] otherwise. *)
Definition max_confidence (l : list Detection) : Q :=
  match map confidence l with
  | [] => 0
  | c :: cs => fold_left Qmax cs c
  end.

(** The detection list of [detect] in [pi-detector.py]: the merged tile
    detections (when the image was sliced) followed by the full-image
    detections, merged once more and not sorted afterwards. *)
Definition pi_final_detections (sliced : bool)
  (tile_detections full_detections : list Detection) : list Detection :=
  let all_detections := if sliced then nms_merge tile_detections 0.4 else [] in
  nms_merge (all_detections ++ full_detections) 0.4.

(** A test on every pair of distinct positions, in both directions. *)
Fixpoint all_pairs (p : Detection -> Detection -> bool) (l : list Detection)
  : bool :=
  match l with
  | [] => true
  | a :: rest => forallb (fun b => p a b && p b a) rest && all_pairs p rest
  end.

(** Every pair has IoU at most the threshold. *)
Definition pairwise_separated (iou_threshold : Q) (l : list Detection) : bool :=
  all_pairs (fun a b => np_le (iou (bbox a) (bbox b)) iou_threshold) l.

(** The DetectionSet invariant: no pair has IoU greater than the threshold. *)
Definition no_pair_above (iou_threshold : Q) (l : list Detection) : bool :=
  all_pairs (fun a b => negb (np_gt (iou (bbox a) (bbox b)) iou_threshold)) l.

(** Every pair has IoU greater than the threshold. *)
Definition mutually_overlapping (iou_threshold : Q) (l : list Detection) : bool :=
  all_pairs (fun a b => np_gt (iou (bbox a) (bbox b)) iou_threshold) l.

(** No two positions carry equal confidences. *)
Definition distinct_confidences (l : list Detection) : bool :=
  all_pairs (fun a b => negb (Qeq_bool (confidence a) (confidence b))) l.

(** Confidences do not increase along the list. *)
Definition confidence_descending (l : list Detection) : Prop :=
  StronglySorted (fun a b => confidence b <= confidence a) l.

(** Position [i] is considered before position [j]: it has the larger
    score, or the same score and comes later in the input. *)
Definition considered_before (scores : list Q) (i j : nat) : Prop :=
  score_at scores j < score_at scores i \/
  (score_at scores j == score_at scores i /\ (j < i)%nat).




End Nms.

(** ** Command line of [yolo-detector.py] *)

Module YoloCli.

Record Args : Type := {
  image_path : string;
  model : string;
  confidence : Q;
  save_annotated : bool;
  json : bool
}.

(** One box of the detector's answer: its class and confidence. *)
Record Box : Type := { cls : Z; conf : Q }.

Inductive DetectResult : Type :=
| Success (total_persons : nat)
| Failure (error : string).

Definition success (r : DetectResult) : bool :=
  match r with Success _ => true | Failure _ => false end.

Section World.

(** [os.path.exists]. *)
Variable path_exists : string -> bool.
(** Loading the model and running it on a file: boxes, or an exception. *)
Variable run_model : string -> string -> result (list Box).

(** Of the successful result only the number of persons is kept;
    [save_annotated] only writes a file and is left out. *)
Definition detect_persons (image_path model_name : string)
  (confidence_threshold : Q) : DetectResult :=
  if negb (path_exists image_path) then
    Failure ("Image not found: " ++ image_path)%string
  else
    match run_model model_name image_path with
    | Raise e => Failure e
    | Return boxes =>
      let person_detections :=
        filter (fun b => (cls b =? 0)%Z && Qle_bool confidence_threshold (conf b))
               boxes in
      Success (length person_detections)
    end.

(** What [main] writes to standard output. *)
Inductive Output : Type :=
| JsonDump (r : DetectResult)
| Report (total_persons : nat)
| ErrorLine (error : string).

(** [main]: the printed output and the exit status of the process
    ([sys.exit(1)] gives 1, falling off the end gives 0). *)
Definition main (args : Args) : Output * Z :=
  let result :=
    detect_persons (image_path args) (model args) (confidence args) in
  if json args then (JsonDump result, 0%Z)
  else
    match result with
    | Success n => (Report n, 0%Z)
    | Failure e => (ErrorLine e, 1%Z)
    end.

End World.

End YoloCli.

(** ** Confidence statistics (the summary each detector script reports) *)

Module Stats.

(** [round(x, 3)]. *)
Definition py_round3 (x : Q) : Q := inject_Z (py_round (x * 1000)) / 1000.

(** [min] and [max] of the non-empty list [c :: cs], [sum] of a list. *)
Definition py_min (c : Q) (cs : list Q) : Q := fold_left Qmin cs c.
Definition py_max (c : Q) (cs : list Q) : Q := fold_left Qmax cs c.
Definition py_sum (l : list Q) : Q := fold_left Qplus l 0.

Record ConfidenceStats : Type := {
  min_confidence : Q;
  max_confidence : Q;
  avg_confidence : Q
}.

(** [round(min(confidences), 3) if confidences else 0] and its two
    siblings. *)
Definition confidence_stats (confidences : list Q) : ConfidenceStats :=
  match confidences with
  | [] => {| min_confidence := 0; max_confidence := 0; avg_confidence := 0 |}
  | c :: cs =>
    {| min_confidence := py_round3 (py_min c cs);
       max_confidence := py_round3 (py_max c cs);
       avg_confidence :=
         py_round3 (py_sum confidences
                    / inject_Z (Z.of_nat (length confidences))) |}
  end.

Record Distribution : Type := { high : nat; medium : nat; low : nat }.

End Stats.

(** ** Person statistics of [yolo-detector.py] ([detect_persons]) *)

Module YoloStats.

Import Stats.

(** The confidences stored for the boxes of class 0 at or above the
    threshold, each rounded to three places. *)
Definition person_confidences (boxes : list YoloCli.Box)
  (confidence_threshold : Q) : list Q :=
  map (fun b => py_round3 (YoloCli.conf b))
      (filter (fun b => (YoloCli.cls b =? 0)%Z
                        && Qle_bool confidence_threshold (YoloCli.conf b))
              boxes).

(** The three confidence buckets: at least 0.7, from 0.5 to below 0.7, and
    below 0.5. *)
Definition confidence_distribution (confidences : list Q) : Distribution :=
  {| high := length (filter (fun c => Qle_bool 0.7 c) confidences);
     medium := length (filter (fun c => Qle_bool 0.5 c && negb (Qle_bool 0.7 c))
                              confidences);
     low := length (filter (fun c => negb (Qle_bool 0.5 c)) confidences) |}.

Record Detections : Type := {
  total_persons : nat;
  stats : ConfidenceStats;
  distribution : Distribution
}.

(** The ["detections"] entry of a successful result. *)
Definition summarize (boxes : list YoloCli.Box) (confidence_threshold : Q)
  : Detections :=
  let confidences := person_confidences boxes confidence_threshold in
  let total_detections := length confidences in
  if (0 <? total_detections)%nat then
    {| total_persons := total_detections;
       stats := confidence_stats confidences;
       distribution := confidence_distribution confidences |}
  else
    {| total_persons := total_detections;
       stats := {| min_confidence := 0; max_confidence := 0;
                   avg_confidence := 0 |};
       distribution := {| high := 0; medium := 0; low := 0 |} |}.

End YoloStats.

(** ** Report and command line of [pixel-density-analyzer.py] *)

Module FallbackCli.

Import Stats PixelDensity.

(** The ["confidence_distribution"] entry: the whole estimate goes into the
    bucket of the single confidence value. *)
Definition confidence_distribution (estimated_persons : Z) (confidence : Q)
  : Z * Z * Z :=
  (if Qle_bool 0.7 confidence then estimated_persons else 0%Z,
   if Qle_bool 0.5 confidence && negb (Qle_bool 0.7 confidence)
   then estimated_persons else 0%Z,
   if negb (Qle_bool 0.5 confidence) then estimated_persons else 0%Z).

Inductive Output : Type :=
| JsonDump (r : Analysis)
| Report (e : Estimate)
| ErrorLine (error : string).

(** [main]: what is printed and the exit status of the process. *)
Definition main (image_path : string) (path_exists : bool)
  (img : option PixelCounts) (json : bool) : Output * Z :=
  let result := analyze_pixel_density image_path path_exists img in
  if json then (JsonDump result, 0%Z)
  else
    match result with
    | Success e => (Report e, 0%Z)
    | Failure error => (ErrorLine error, 1%Z)
    end.

End FallbackCli.

(** ** Detection pipelines ([beach-detector.py] [detect_beach_crowd],
       [pi-detector.py] [detect]) *)

Module Pipeline.

Import Nms Tiling Stats.

(** One box of a detector answer: [box.xyxy[0]] and [box.conf[0]]. *)
Record RawBox : Type := { xyxy : BBox; conf : Q }.

(** A box found on a slice, moved back by the slice offset [(ox, oy)]. *)
Definition shift_box (ox oy : Z) (b : BBox) : BBox :=
  {| x1 := x1 b + inject_Z ox; y1 := y1 b + inject_Z oy;
     x2 := x2 b + inject_Z ox; y2 := y2 b + inject_Z oy |}.

Definition slice_detection (label : string) (s : Tile) (r : RawBox) : Detection :=
  {| bbox := shift_box (x_start s) (y_start s) (xyxy r);
     confidence := conf r; class_label := label |}.

Definition image_detection (label : string) (r : RawBox) : Detection :=
  {| bbox := xyxy r; confidence := conf r; class_label := label |}.

(** [list.sort(key=confidence, reverse=True)]: descending, equal keys stay
    in their original order. *)
Fixpoint insert_desc (d : Detection) (sorted : list Detection) : list Detection :=
  match sorted with
  | [] => [d]
  | e :: rest =>
    if Qle_bool (confidence d) (confidence e) then e :: insert_desc d rest
    else d :: e :: rest
  end.

Definition sort_by_confidence (l : list Detection) : list Detection :=
  fold_left (fun sorted d => insert_desc d sorted) l [].

Record Summary : Type := {
  total_persons : nat;
  stats : ConfidenceStats;
  persons : list Detection
}.

Definition summarize (all_detections : list Detection) : Summary :=
  {| total_persons := length all_detections;
     stats := confidence_stats (map confidence all_detections);
     persons := all_detections |}.

Inductive DetectResult : Type :=
| Success (s : Summary)
| Failure (error : string).

Definition SLICE_SIZE : Z := 640.
Definition SLICE_OVERLAP : Q := 0.25.

(** The image is larger than 1280 on some axis. *)
Definition large_image (h w : Z) : bool := (1280 <? w)%Z || (1280 <? h)%Z.

Section Detector.

(** [cv2.imread]: the shape of the decoded image, or [None]. *)
Variable imread : string -> option (Z * Z).
(** The detector's answer on one slice and on the whole image, already
    restricted to persons at or above the confidence threshold. *)
Variable detect_slice : string -> Tile -> list RawBox.
Variable detect_image : string -> list RawBox.

(** [detect_beach_crowd] once the model is loaded, without its optional
    annotated image. *)
Definition detect_beach_crowd (image_path : string) (use_slicing : bool)
  : result DetectResult :=
  match imread image_path with
  | None => Return (Failure ("Could not load image: " ++ image_path)%string)
  | Some (h, w) =>
    bind
      (if use_slicing && large_image h w then
         bind (slice_image h w 640 0.25) (fun slices =>
         let all_detections :=
           flat_map (fun s => map (slice_detection "person" s)
                                  (detect_slice image_path s)) slices in
         Return (merge_detections all_detections 0.4))
       else
         Return (map (image_detection "person") (detect_image image_path)))
      (fun all_detections =>
       let all_detections :=
         all_detections ++ map (image_detection "person") (detect_image image_path) in
       let all_detections := merge_detections all_detections 0.4 in
       let all_detections := sort_by_confidence all_detections in
       Return (Success (summarize all_detections)))
  end.

(** [detect] of [pi-detector.py]; its dictionaries carry no class, and its
    result reports only the count and the statistics of the final list
    (kept in [persons] here to speak about it). *)
Definition detect (image_path : string) (use_slicing : bool)
  : result DetectResult :=
  match imread image_path with
  | None => Return (Failure ("Could not load image: " ++ image_path)%string)
  | Some (h, w) =>
    bind
      (if use_slicing && large_image h w then
         bind (slice_image h w SLICE_SIZE SLICE_OVERLAP) (fun slices =>
         let all_detections :=
           flat_map (fun s => map (slice_detection EmptyString s)
                                  (detect_slice image_path s)) slices in
         Return (nms_merge all_detections 0.4))
       else Return [])
      (fun all_detections =>
       let all_detections :=
         all_detections
         ++ map (image_detection EmptyString) (detect_image image_path) in
       let all_detections := nms_merge all_detections 0.4 in
       Return (Success (summarize all_detections)))
  end.

(** What the two [main] functions write to standard output: the result as
    JSON (with the busyness fields once they are merged in), the text
    report, an error line, the usage text, or nothing. *)
Inductive Output : Type :=
| JsonDump (r : DetectResult) (busyness : option Busyness.BusynessResult)
| Report (s : Summary) (busyness : option Busyness.BusynessResult)
| ErrorLine (error : string)
| Help
| Silent.


Record PiArgs : Type := {
  image : option string;
  capture : bool;
  stream : option string;
  output : option string;
  beach_area : Q;
  no_slicing : bool;
  json : bool
}.

(** Truth value of an optional command-line string: [None] and the empty
    string are false. *)
Definition given (s : option string) : option string :=
  match s with
  | Some EmptyString | None => None
  | Some p => Some p
  end.

(** The result of running ffmpeg: its return code, a timeout, or the
    program missing. *)
Inductive RunOutcome : Type :=
| Completed (returncode : Z)
| TimeoutExpired
| FileNotFoundError.

Variable mktemp : string.
Variable run_ffmpeg : string -> string -> RunOutcome.
Variable path_exists : string -> bool.

(** [capture_hls_frame]: the path of the captured frame, or [None]; the line
    it prints when ffmpeg is missing is left out. *)
Definition capture_hls_frame (stream_url : string) (output_path : option string)
  : option string :=
  let output_path :=
    match output_path with None => mktemp | Some p => p end in
  match run_ffmpeg stream_url output_path with
  | Completed returncode =>
    if (returncode =? 0)%Z && path_exists output_path then Some output_path
    else None
  | TimeoutExpired => None
  | FileNotFoundError => None
  end.

(** The detection and scoring part of [main] of [pi-detector.py]. *)
Definition analyze (image_path : string) (args : PiArgs)
  : result (Output * Z) :=
  bind (detect image_path (negb (no_slicing args))) (fun result =>
  bind
    (match result with
     | Success s =>
       bind (Busyness.calculate_busyness (Z.of_nat (total_persons s))
                                         (beach_area args))
            (fun busyness => Return (Some busyness))
     | Failure _ => Return None
     end)
    (fun busyness =>
     if json args then Return (JsonDump result busyness, 0%Z)
     else
       match result with
       | Success s => Return (Report s busyness, 0%Z)
       | Failure error => Return (ErrorLine error, 0%Z)
       end)).

(** [main] of [pi-detector.py]: output and exit status, or the exception
    that ends the process. *)
Definition pi_main (args : PiArgs) : result (Output * Z) :=
  if capture args then
    match given (stream args) with
    | None => Return (Silent, 1%Z)
    | Some stream_url =>
      match capture_hls_frame stream_url (output args) with
      | None | Some EmptyString =>
        if json args then
          Return (JsonDump (Failure "Failed to capture frame from stream") None,
                  1%Z)
        else Return (ErrorLine "Failed to capture frame from stream", 1%Z)
      | Some image_path => analyze image_path args
      end
    end
  else
    match given (image args) with
    | None => Return (Help, 1%Z)
    | Some image_path => analyze image_path args
    end.

End Detector.

End Pipeline.

(** ** Order of the busyness levels *)

Module BusynessOrder.

Import Busyness.

(** The levels from the quietest to the busiest. *)
Definition level_rank (l : Level) : Z :=
  match l with
  | quiet => 0
  | moderate => 1
  | busy => 2
  | very_busy => 3
  end.

End BusynessOrder.

(** ** Shapes of boxes *)

Module Geometry.

Import Nms.

(** The corners are in order: [x1 <= x2] and [y1 <= y2]. *)
Definition well_formed (b : BBox) : bool :=
  Qle_bool (x1 b) (x2 b) && Qle_bool (y1 b) (y2 b).

(** The box is at least one pixel wide and one pixel high. *)
Definition one_pixel (b : BBox) : bool :=
  Qle_bool (x1 b + 1) (x2 b) && Qle_bool (y1 b + 1) (y2 b).

(** The box lies in the image of height [h] and width [w]. *)
Definition inside (h w : Z) (b : BBox) : bool :=
  Qle_bool 0 (x1 b) && Qle_bool (x2 b) (inject_Z w)
  && Qle_bool 0 (y1 b) && Qle_bool (y2 b) (inject_Z h).

(** A detection moved by an offset, as the slice detections are. *)
Definition shift_detection (ox oy : Z) (d : Detection) : Detection :=
  {| bbox := Pipeline.shift_box ox oy (bbox d);
     confidence := confidence d;
     class_label := class_label d |}.

End Geometry.

(** * Properties *)

(** ** Numeric primitives *)

Section PyNumFacts.

Lemma py_int_nonneg_floor (x : Q) : 0 <= x -> py_int x = Qfloor x.
Proof.
  destruct x as [n d]; unfold py_int, Qfloor, Qle; cbn; intros H.
  apply Z.quot_div_nonneg; lia.
Qed.

Lemma Qfloor_between (x : Q) (lo hi : Z) :
  inject_Z lo <= x -> x <= inject_Z hi -> (lo <= Qfloor x <= hi)%Z.
Proof.
  intros Hlo Hhi; split.
  - rewrite <- (Qfloor_Z lo); now apply Qfloor_resp_le.
  - rewrite <- (Qfloor_Z hi); now apply Qfloor_resp_le.
Qed.

Lemma py_round_nearest (x : Q) : nearest_integer x (py_round x).
Proof.
  unfold nearest_integer, py_round.
  pose proof (Qfloor_le x) as Hlo.
  pose proof (Qlt_floor x) as Hhi.
  rewrite inject_Z_plus in Hhi.
  change (inject_Z 1) with 1 in Hhi.
  set (f := Qfloor x) in *.
  assert (Hup : Qabs (x - inject_Z (f + 1)) <= 0.5 <-> 0.5 <= x - inject_Z f).
  { rewrite inject_Z_plus; change (inject_Z 1) with 1.
    split; intros H.
    - apply Qabs_Qle_condition in H; lra.
    - apply Qabs_Qle_condition; lra. }
  assert (Hdn : Qabs (x - inject_Z f) <= 0.5 <-> x - inject_Z f <= 0.5).
  { split; intros H.
    - apply Qabs_Qle_condition in H; lra.
    - apply Qabs_Qle_condition; lra. }
  destruct (Qcompare_spec (x - inject_Z f) 0.5) as [E | E | E].
  - destruct (Z.even f); [apply Hdn | apply Hup]; lra.
  - apply Hdn; lra.
  - apply Hup; lra.
Qed.

Lemma Qle_bool_false_lt (x y : Q) : Qle_bool x y = false -> y < x.
Proof.
  intros H; apply Qnot_le_lt; intros Hle.
  apply Qle_bool_iff in Hle; congruence.
Qed.


End PyNumFacts.

(** Divisions by literals become multiplications, which [lra] handles. *)
Ltac qconst := unfold Qdiv; cbn [Qinv Qnum Qden].

(** ** Busyness scorer *)

Section BusynessFacts.

Import Busyness.

Lemma density_nonneg (person_count : Z) (reference_area : Q) :
  (0 <= person_count)%Z -> 0 < reference_area ->
  0 <= spec_density person_count reference_area.
Proof.
  intros Hc Ha; unfold spec_density.
  apply Qmult_le_0_compat; [| lra].
  apply Qle_shift_div_l; [assumption |].
  rewrite Qmult_0_l.
  change 0 with (inject_Z 0); now rewrite <- Zle_Qle.
Qed.

(** The four branches of [score_level] for a non-negative density, with the
    truncation read as a floor. *)
Lemma score_level_floor (d : Q) :
  0 <= d ->
  score_level d =
    if Qle_bool d 0.5 then (Qfloor (d / 0.5 * 25), quiet)
    else if Qle_bool d 2.0 then (Qfloor (25 + (d - 0.5) / 1.5 * 25), moderate)
    else if Qle_bool d 4.0 then (Qfloor (50 + (d - 2.0) / 2.0 * 25), busy)
    else (Z.min 100 (Qfloor (75 + (d - 4.0) / 4.0 * 25)), very_busy).
Proof.
  intros Hd; unfold score_level.
  destruct (Qle_bool d 0.5) eqn:E1.
  { rewrite py_int_nonneg_floor; [reflexivity | qconst; lra]. }
  apply Qle_bool_false_lt in E1.
  destruct (Qle_bool d 2.0) eqn:E2.
  { rewrite py_int_nonneg_floor; [reflexivity | qconst; lra]. }
  apply Qle_bool_false_lt in E2.
  destruct (Qle_bool d 4.0) eqn:E3.
  { rewrite py_int_nonneg_floor; [reflexivity | qconst; lra]. }
  apply Qle_bool_false_lt in E3.
  rewrite py_int_nonneg_floor; [reflexivity | qconst; lra].
Qed.

Lemma score_level_bounds (d : Q) :
  0 <= d -> (0 <= fst (score_level d) <= 100)%Z.
Proof.
  intros Hd; rewrite score_level_floor by assumption.
  destruct (Qle_bool d 0.5) eqn:E1.
  { apply Qle_bool_iff in E1; cbn [fst].
    apply Qfloor_between; unfold inject_Z; qconst; lra. }
  apply Qle_bool_false_lt in E1.
  destruct (Qle_bool d 2.0) eqn:E2.
  { apply Qle_bool_iff in E2; cbn [fst].
    apply Qfloor_between; unfold inject_Z; qconst; lra. }
  apply Qle_bool_false_lt in E2.
  destruct (Qle_bool d 4.0) eqn:E3.
  { apply Qle_bool_iff in E3; cbn [fst].
    apply Qfloor_between; unfold inject_Z; qconst; lra. }
  apply Qle_bool_false_lt in E3; cbn [fst].
  assert (H : (0 <= Qfloor (75 + (d - 4.0) / 4.0 * 25))%Z).
  { change (Qfloor 0 <= Qfloor (75 + (d - 4.0) / 4.0 * 25))%Z.
    apply Qfloor_resp_le; qconst; lra. }
  lia.
Qed.




End BusynessFacts.

(** ** Pixel-statistics fallback *)

Section PixelDensityFacts.

Import PixelDensity.






Lemma analyze_pixel_density_succeeds (image_path : string) (c : PixelCounts) :
  (height c * width c <> 0)%Z ->
  let total_pixels := (height c * width c)%Z in
  let skin := percentage (skin_pixels c) total_pixels in
  let bright := percentage (bright_pixels c) total_pixels in
  let edge := percentage (edge_pixels c) total_pixels in
  analyze_pixel_density image_path true (Some c) =
  Success {| total_persons := estimate_persons skin bright edge;
             confidence := estimate_confidence skin bright;
             weighted_activity :=
               (skin * 0.6) + (bright * 0.25) + (edge * 0.15) |}.
Proof.
  intros Hne; cbn zeta; unfold analyze_pixel_density; cbn [negb].
  apply Z.eqb_neq in Hne; now rewrite Hne.
Qed.






End PixelDensityFacts.

(** ** Tiling engine *)

Section TilingFacts.

Import Tiling.

Lemma range_from_In (n : nat) (start step v : Z) :
  In v (range_from n start step) <->
  exists k, (k < n)%nat /\ v = (start + Z.of_nat k * step)%Z.
Proof.
  revert start; induction n as [| n IH]; intros start; cbn [range_from In].
  - split; [tauto | intros (k & Hk & _); lia].
  - rewrite IH; split.
    + intros [<- | (k & Hk & ->)].
      * exists 0%nat; split; lia.
      * exists (S k); split; lia.
    + intros ([| k] & Hk & ->).
      * left; lia.
      * right; exists k; split; lia.
Qed.


Lemma py_range_positive (stop step : Z) :
  (1 <= stop)%Z -> (1 <= step)%Z -> py_range 0 stop step = Return (steps stop step).
Proof.
  intros Hstop Hstep; unfold py_range, range_len, steps.
  destruct (Z.eqb_spec step 0) as [E | _]; [lia |].
  destruct (Z.ltb_spec 0 step) as [_ | E]; [| lia].
  destruct (Z.ltb_spec 0 stop) as [_ | E]; [| lia].
  now rewrite Z.sub_0_r.
Qed.

Lemma py_range_zero_step (start stop : Z) :
  py_range start stop 0 = Raise "ValueError".
Proof. reflexivity. Qed.

Lemma steps_nonneg (stop step v : Z) :
  (1 <= step)%Z -> In v (steps stop step) -> (0 <= v)%Z.
Proof.
  intros Hstep Hin; apply range_from_In in Hin as (k & _ & ->); nia.
Qed.

(** Every coordinate below [stop] has a walk position at most [step - 1]
    before it. *)
Lemma steps_reach (stop step p : Z) :
  (1 <= step)%Z -> (0 <= p < stop)%Z ->
  exists v, In v (steps stop step) /\ (v <= p < v + step)%Z.
Proof.
  intros Hstep Hp.
  exists (step * (p / step))%Z; split.
  - apply range_from_In; exists (Z.to_nat (p / step)).
    assert (H0 : (0 <= p / step)%Z) by (apply Z.div_pos; lia).
    assert (H1 : (p / step <= (stop - 1) / step)%Z)
      by (apply Z.div_le_mono; lia).
    split; [lia |].
    rewrite Z2Nat.id by assumption; ring.
  - pose proof (Z.mul_div_le p step ltac:(lia)).
    pose proof (Z.mul_succ_div_gt p step ltac:(lia)).
    lia.
Qed.


Lemma for_each_return {A B : Type} (l : list A) (f : A -> list B) :
  for_each l (fun a => Return (f a)) = Return (flat_map f l).
Proof.
  induction l as [| a l IH]; cbn [for_each flat_map bind]; [reflexivity |].
  now rewrite IH.
Qed.

Lemma for_each_ext {A B : Type} (l : list A) (f g : A -> result (list B)) :
  (forall a, f a = g a) -> for_each l f = for_each l g.
Proof.
  intros H; induction l as [| a l IH]; cbn [for_each]; [reflexivity |].
  now rewrite H, IH.
Qed.


(** The truncated stride lies between 0 and the slice size. *)
Lemma stride_of_bounds (slice_size : Z) (overlap : Q) :
  (0 < slice_size)%Z -> 0 <= overlap -> overlap < 1 ->
  (0 <= stride_of slice_size overlap <= slice_size)%Z.
Proof.
  intros Hs Ho1 Ho2; unfold stride_of.
  assert (Hq : 0 < inject_Z slice_size)
    by (change 0 with (inject_Z 0); now rewrite <- Zlt_Qlt).
  assert (Hlo : 0 <= inject_Z slice_size * (1 - overlap)) by nra.
  rewrite py_int_nonneg_floor by assumption.
  apply Qfloor_between; [exact Hlo | nra].
Qed.

(** With a positive stride the two loops run to completion. *)
Lemma slice_image_positive_stride (h w slice_size : Z) (overlap : Q) :
  (1 <= w)%Z -> (1 <= h)%Z -> (1 <= stride_of slice_size overlap)%Z ->
  slice_image h w slice_size overlap =
  Return (flat_map
            (fun y => map (fun x => make_tile w h slice_size x y)
                          (steps w (stride_of slice_size overlap)))
            (steps h (stride_of slice_size overlap))).
Proof.
  intros Hw Hh Hstride; unfold slice_image.
  rewrite (py_range_positive h) by assumption; cbn [bind].
  rewrite <- for_each_return.
  apply for_each_ext; intros y.
  now rewrite (py_range_positive w) by assumption.
Qed.

Lemma make_tile_extent (w h slice_size x y : Z) :
  (0 < slice_size)%Z -> (1 <= w)%Z -> (1 <= h)%Z -> (0 <= x)%Z -> (0 <= y)%Z ->
  let t := make_tile w h slice_size x y in
  (x_end t - x_start t = Z.min slice_size w)%Z /\
  (y_end t - y_start t = Z.min slice_size h)%Z /\
  (0 <= x_start t)%Z /\ (x_end t <= w)%Z /\
  (0 <= y_start t)%Z /\ (y_end t <= h)%Z.
Proof. intros; unfold make_tile; cbn; lia. Qed.

Lemma make_tile_covers (w h slice_size stride x y px py : Z) :
  (stride <= slice_size)%Z -> (0 <= x)%Z -> (0 <= y)%Z ->
  (x <= px < x + stride)%Z -> (px < w)%Z ->
  (y <= py < y + stride)%Z -> (py < h)%Z ->
  covers (make_tile w h slice_size x y) px py.
Proof. intros; unfold covers, make_tile; cbn; lia. Qed.




(** C6: for every image with W >= 1 and H >= 1, every slice_size > 0 and
    0 <= overlap < 1 with stride = floor(slice_size * (1 - overlap)) >= 1,
    slice_image returns tiles whose union covers every pixel (x, y) with
    0 <= x < W and 0 <= y < H, and every tile lies inside the image and has
    extent slice_size on an axis unless the image is smaller than slice_size
    on that axis, in which case it spans the whole image on that axis. *)
Theorem slice_image_covers_with_full_tiles
  (h w slice_size : Z) (overlap : Q)
  (Hw : (1 <= w)%Z) (Hh : (1 <= h)%Z) (Hsize : (0 < slice_size)%Z)
  (Hov0 : 0 <= overlap) (Hov1 : overlap < 1)
  (Hstride : (1 <= stride_of slice_size overlap)%Z) :
  exists tiles,
    slice_image h w slice_size overlap = Return tiles /\
    (forall x y, (0 <= x < w)%Z -> (0 <= y < h)%Z ->
       exists t, In t tiles /\ covers t x y) /\
    (forall t, In t tiles ->
       (0 <= x_start t)%Z /\ (x_end t <= w)%Z /\
       (0 <= y_start t)%Z /\ (y_end t <= h)%Z /\
       (slice_size <= w -> x_end t - x_start t = slice_size)%Z /\
       (w < slice_size -> x_start t = 0 /\ x_end t = w)%Z /\
       (slice_size <= h -> y_end t - y_start t = slice_size)%Z /\
       (h < slice_size -> y_start t = 0 /\ y_end t = h)%Z).
Proof.
  pose proof (stride_of_bounds slice_size overlap Hsize Hov0 Hov1) as Hb.
  set (stride := stride_of slice_size overlap) in *.
  eexists; split; [now apply slice_image_positive_stride |]; fold stride.
  split.
  - intros px py Hx Hy.
    destruct (steps_reach w stride px Hstride Hx) as (x & Hxin & Hxr).
    destruct (steps_reach h stride py Hstride Hy) as (y & Hyin & Hyr).
    exists (make_tile w h slice_size x y); split.
    + apply in_flat_map; exists y; split; [exact Hyin |].
      apply in_map_iff; exists x; split; [reflexivity | exact Hxin].
    + apply (make_tile_covers w h slice_size stride); try lia.
      * now apply (steps_nonneg w stride).
      * now apply (steps_nonneg h stride).
  - intros t Hin.
    apply in_flat_map in Hin as (y & Hyin & Hin).
    apply in_map_iff in Hin as (x & <- & Hxin).
    apply steps_nonneg in Hxin, Hyin; try assumption.
    pose proof (make_tile_extent w h slice_size x y Hsize Hw Hh Hxin Hyin) as He.
    cbn zeta in He; lia.
Qed.

Lemma slice_image_covers_with_full_tiles_witness :
  exists tiles,
    slice_image 1440 2560 640 0.25 = Return tiles /\
    exists t, In t tiles /\ covers t 2559 1439.
Proof.
  destruct (slice_image_covers_with_full_tiles 1440 2560 640 0.25)
    as (tiles & Ht & Hcov & _); try lia; try (vm_compute; congruence).
  exists tiles; split; [exact Ht |].
  apply Hcov; lia.
Defined.

End TilingFacts.

(** ** Detection merger *)

Lemma StronglySorted_snoc {A : Type} (R : A -> A -> Prop) (l : list A) (a : A) :
  StronglySorted R l -> Forall (fun b => R b a) l -> StronglySorted R (l ++ [a]).
Proof.
  induction 1 as [| b l Hs IH Hb]; intros Hall; cbn.
  - repeat constructor.
  - inversion Hall as [| ? ? Hba Hl]; subst.
    constructor; [now apply IH |].
    apply Forall_app; split; [exact Hb | now repeat constructor].
Qed.

Section SortedLists.

Context {A : Type} (R : A -> A -> Prop).

Lemma StronglySorted_rev (l : list A) :
  StronglySorted R l -> StronglySorted (fun a b => R b a) (rev l).
Proof.
  induction 1 as [| a l Hs IH Ha]; cbn; [constructor |].
  apply StronglySorted_snoc; [exact IH |].
  apply Forall_forall; intros b Hb.
  rewrite Forall_forall in Ha; apply Ha; now apply in_rev.
Qed.

Lemma StronglySorted_filter (f : A -> bool) (l : list A) :
  StronglySorted R l -> StronglySorted R (filter f l).
Proof.
  induction 1 as [| a l Hs IH Ha]; cbn; [constructor |].
  destruct (f a); [| exact IH].
  constructor; [exact IH |].
  rewrite Forall_forall in *; intros b Hb.
  apply filter_In in Hb; now apply Ha.
Qed.

Lemma StronglySorted_nth (l : list A) (d : A) :
  StronglySorted R l ->
  forall i j, (i < j)%nat -> (j < length l)%nat -> R (nth i l d) (nth j l d).
Proof.
  induction 1 as [| a l Hs IH Ha]; intros i j Hij Hj; cbn in Hj; [lia |].
  destruct j as [| j]; [lia |].
  destruct i as [| i]; cbn.
  - rewrite Forall_forall in Ha; apply Ha, nth_In; lia.
  - apply IH; lia.
Qed.

(** Two sorted arrangements of the same elements coincide when the order
    has no cycle of length two. *)
Lemma StronglySorted_unique (l1 l2 : list A) :
  (forall a b, R a b -> R b a -> False) ->
  StronglySorted R l1 -> StronglySorted R l2 -> Permutation l1 l2 -> l1 = l2.
Proof.
  intros Hasym Hs1; revert l2.
  induction Hs1 as [| a l1 Hs1 IH Ha]; intros l2 Hs2 Hp.
  - now apply Permutation_nil in Hp.
  - destruct Hs2 as [| b l2 Hs2 Hb].
    + now apply Permutation_sym, Permutation_nil in Hp.
    + assert (Hab : a = b).
      { assert (Hin1 : In a (b :: l2))
          by (apply (Permutation_in _ Hp); now left).
        assert (Hin2 : In b (a :: l1))
          by (apply (Permutation_in _ (Permutation_sym Hp)); now left).
        destruct Hin1 as [-> | Hin1]; [reflexivity |].
        destruct Hin2 as [-> | Hin2]; [reflexivity |].
        rewrite Forall_forall in Ha, Hb.
        exfalso; apply (Hasym a b); [now apply Ha | now apply Hb]. }
      subst b; f_equal.
      apply IH; [exact Hs2 | now apply Permutation_cons_inv in Hp].
Qed.

Lemma StronglySorted_seq (start len : nat) (P : nat -> nat -> Prop) :
  (forall i j, (start <= i)%nat -> (i < j)%nat -> (j < start + len)%nat -> P i j) ->
  StronglySorted P (seq start len).
Proof.
  revert start; induction len as [| len IH]; intros start H; cbn;
    constructor.
  - apply IH; intros i j Hi Hij Hj; apply H; lia.
  - apply Forall_forall; intros j Hj; apply in_seq in Hj; apply H; lia.
Qed.

End SortedLists.

Lemma StronglySorted_map {A B : Type} (R : B -> B -> Prop) (f : A -> B)
  (l : list A) :
  StronglySorted (fun a b => R (f a) (f b)) l -> StronglySorted R (map f l).
Proof.
  induction 1 as [| a l Hs IH Ha]; cbn; constructor; [exact IH |].
  apply Forall_map; exact Ha.
Qed.

Lemma StronglySorted_weaken {A : Type} (R S : A -> A -> Prop) (l : list A) :
  (forall a b, R a b -> S a b) -> StronglySorted R l -> StronglySorted S l.
Proof.
  intros H; induction 1 as [| a l Hs IH Ha]; constructor; [exact IH |].
  eapply Forall_impl; [| exact Ha]; intros b; apply H.
Qed.

Lemma map_nth_seq {A : Type} (l : list A) (d : A) :
  map (fun i => nth i l d) (seq 0 (length l)) = l.
Proof.
  induction l as [| a l IH]; cbn; [reflexivity |].
  f_equal; rewrite <- seq_shift, map_map; exact IH.
Qed.

Section ArgsortFacts.

Import Nms.

Variable scores : list Q.

Let ascending (i j : nat) : Prop := considered_before scores j i.

Lemma insert_perm (i : nat) (l : list nat) :
  Permutation (insert scores i l) (i :: l).
Proof.
  induction l as [| j l IH]; cbn [insert]; [reflexivity |].
  destruct (Qle_bool _ _); [| reflexivity].
  rewrite IH; apply perm_swap.
Qed.

Lemma insert_sorted (i : nat) (l : list nat) :
  StronglySorted ascending l -> Forall (fun j => (j < i)%nat) l ->
  StronglySorted ascending (insert scores i l).
Proof.
  induction 1 as [| j l Hs IH Hj]; intros Hlt; cbn [insert].
  - repeat constructor.
  - inversion Hlt as [| ? ? Hji Hl]; subst.
    destruct (Qle_bool (score_at scores j) (score_at scores i)) eqn:E.
    + apply Qle_bool_iff in E.
      constructor; [now apply IH |].
      apply (Permutation_Forall (Permutation_sym (insert_perm i l))).
      constructor; [| exact Hj].
      unfold ascending, considered_before.
      destruct (Qlt_le_dec (score_at scores j) (score_at scores i));
        [now left | right; split; [lra | exact Hji]].
    + apply Qle_bool_false_lt in E.
      constructor; [now constructor |].
      constructor; [now left |].
      rewrite Forall_forall in *; intros k Hk.
      destruct (Hj k Hk) as [H | [H _]]; left; lra.
Qed.

Lemma fold_insert_perm (l acc : list nat) :
  Permutation (fold_left (fun sorted i => insert scores i sorted) l acc)
              (acc ++ l).
Proof.
  revert acc; induction l as [| i l IH]; intros acc; cbn [fold_left].
  - now rewrite app_nil_r.
  - rewrite IH, insert_perm; apply Permutation_middle.
Qed.

Lemma fold_insert_sorted (len start : nat) (acc : list nat) :
  StronglySorted ascending acc -> Forall (fun j => (j < start)%nat) acc ->
  StronglySorted ascending
    (fold_left (fun sorted i => insert scores i sorted) (seq start len) acc).
Proof.
  revert start acc; induction len as [| len IH]; intros start acc Hs Hlt;
    cbn [seq fold_left]; [exact Hs |].
  apply IH; [now apply insert_sorted |].
  apply (Permutation_Forall (Permutation_sym (insert_perm start acc))).
  constructor; [lia |].
  eapply Forall_impl; [| exact Hlt]; cbn; lia.
Qed.

Lemma argsort_perm : Permutation (argsort scores) (seq 0 (length scores)).
Proof. unfold argsort; now rewrite fold_insert_perm. Qed.

Lemma argsort_sorted : StronglySorted ascending (argsort scores).
Proof. apply fold_insert_sorted; constructor. Qed.

Lemma considered_before_asym (i j : nat) :
  considered_before scores i j -> considered_before scores j i -> False.
Proof. unfold considered_before; intros [H1 | [H1 L1]] [H2 | [H2 L2]]; lra || lia. Qed.

End ArgsortFacts.

Lemma filter_none {A : Type} (f : A -> bool) (l : list A) :
  (forall a, In a l -> f a = false) -> filter f l = [].
Proof.
  induction l as [| a l IH]; intros H; cbn; [reflexivity |].
  rewrite (H a) by now left.
  apply IH; intros b Hb; apply H; now right.
Qed.

Section LoopFacts.

Import Nms.

Variable boxes : list BBox.
Variable iou_threshold : Q.

Let keep (i j : nat) : bool :=
  np_le (iou (box_at boxes i) (box_at boxes j)) iou_threshold.

Lemma nms_loop_incl (fuel : nat) (order : list nat) :
  incl (nms_loop boxes iou_threshold fuel order) order.
Proof.
  revert order; induction fuel as [| fuel IH]; intros order; cbn [nms_loop].
  - intros k [].
  - destruct order as [| i [| j rest]]; [intros k [] | apply incl_refl |].
    apply incl_cons; [now left |].
    intros k Hk; right.
    apply IH in Hk; now apply filter_In in Hk.
Qed.

Lemma nms_loop_sorted (R : nat -> nat -> Prop) (fuel : nat) (order : list nat) :
  StronglySorted R order ->
  StronglySorted R (nms_loop boxes iou_threshold fuel order).
Proof.
  revert order; induction fuel as [| fuel IH]; intros order Hs; cbn [nms_loop];
    [constructor |].
  destruct order as [| i [| j rest]]; [constructor | exact Hs |].
  inversion Hs as [| ? ? Hrest Hi]; subst.
  constructor.
  - now apply IH, StronglySorted_filter.
  - rewrite Forall_forall in *; intros k Hk.
    apply nms_loop_incl in Hk; apply filter_In in Hk; now apply Hi.
Qed.

Lemma nms_loop_NoDup (fuel : nat) (order : list nat) :
  NoDup order -> NoDup (nms_loop boxes iou_threshold fuel order).
Proof.
  revert order; induction fuel as [| fuel IH]; intros order Hs; cbn [nms_loop];
    [constructor |].
  destruct order as [| i [| j rest]]; [constructor | exact Hs |].
  inversion Hs as [| ? ? Hi Hrest]; subst.
  constructor.
  - intros Hk; apply nms_loop_incl in Hk; apply filter_In in Hk; tauto.
  - now apply IH, NoDup_filter.
Qed.

(** Each kept position passed the test against every position kept before
    it. *)
Lemma nms_loop_separated (fuel : nat) (order : list nat) :
  ForallOrdPairs (fun i j => keep i j = true)
                 (nms_loop boxes iou_threshold fuel order).
Proof.
  revert order; induction fuel as [| fuel IH]; intros order; cbn [nms_loop];
    [constructor |].
  destruct order as [| i [| j rest]]; [constructor | repeat constructor |].
  constructor; [| apply IH].
  apply Forall_forall; intros k Hk.
  apply nms_loop_incl in Hk; apply filter_In in Hk; tauto.
Qed.

(** Positions that all pass the test against each other are all kept. *)
Lemma nms_loop_keeps_all (fuel : nat) (order : list nat) :
  NoDup order ->
  (forall i j, In i order -> In j order -> i <> j -> keep i j = true) ->
  (length order <= fuel)%nat ->
  nms_loop boxes iou_threshold fuel order = order.
Proof.
  revert order; induction fuel as [| fuel IH]; intros order Hnd Hall Hlen;
    cbn [nms_loop].
  - destruct order; [reflexivity | cbn in Hlen; lia].
  - destruct order as [| i [| j rest]]; [reflexivity | reflexivity |].
    inversion Hnd as [| ? ? Hi Hrest]; subst.
    assert (Hf : filter (fun k => np_le (iou (box_at boxes i) (box_at boxes k))
                                        iou_threshold) (j :: rest) = j :: rest).
    { apply forallb_filter_id, forallb_forall; intros k Hk.
      apply (Hall i k); [now left | now right |].
      intros ->; tauto. }
    rewrite Hf; f_equal.
    apply IH; [exact Hrest | | cbn in Hlen |- *; lia].
    intros a b Ha Hb; apply Hall; now right.
Qed.

(** When the first position suppresses all others, it alone is kept. *)
Lemma nms_loop_head_only (fuel : nat) (i : nat) (rest : list nat) :
  (forall j, In j rest -> keep i j = false) ->
  nms_loop boxes iou_threshold (S fuel) (i :: rest) = [i].
Proof.
  intros Hall; cbn [nms_loop].
  destruct rest as [| j rest]; [reflexivity |].
  rewrite (filter_none _ (j :: rest)) by exact Hall.
  destruct fuel; reflexivity.
Qed.

(** The loop never runs out of fuel: more fuel than the length of [order]
    changes nothing. *)
Lemma nms_loop_fuel_enough (fuel1 fuel2 : nat) (order : list nat) :
  (length order <= fuel1)%nat -> (length order <= fuel2)%nat ->
  nms_loop boxes iou_threshold fuel1 order =
  nms_loop boxes iou_threshold fuel2 order.
Proof.
  revert fuel2 order; induction fuel1 as [| fuel1 IH]; intros fuel2 order H1 H2.
  - destruct order; [| cbn in H1; lia]; now destruct fuel2.
  - destruct fuel2 as [| fuel2].
    + destruct order; [reflexivity | cbn in H2; lia].
    + cbn [nms_loop].
      destruct order as [| i [| j rest]]; [reflexivity | reflexivity |].
      f_equal; cbn [length] in H1, H2.
      set (f := fun k => np_le (iou (box_at boxes i) (box_at boxes k))
                               iou_threshold).
      pose proof (filter_length_le f (j :: rest)) as Hf; cbn [length] in Hf.
      apply IH; lia.
Qed.

End LoopFacts.

Section OverlapFacts.

Import Nms.

Lemma np_le_not_gt (v : npfloat) (t : Q) : np_le v t = true -> np_gt v t = false.
Proof. destruct v; cbn; intros H; try reflexivity; try discriminate; now rewrite H. Qed.

Lemma np_gt_not_le (v : npfloat) (t : Q) : np_gt v t = true -> np_le v t = false.
Proof.
  destruct v; cbn; intros H; try reflexivity; try discriminate.
  now apply negb_true_iff in H.
Qed.

Lemma np_lt_le (v : npfloat) (t : Q) : np_lt v t = true -> np_le v t = true.
Proof.
  destruct v; cbn; intros H; try reflexivity; try discriminate.
  apply negb_true_iff, Qle_bool_false_lt in H.
  apply Qle_bool_iff; lra.
Qed.

Lemma inter_area_sym (a b : BBox) : inter_area a b == inter_area b a.
Proof.
  unfold inter_area.
  rewrite (Q.max_comm (x1 a) (x1 b)), (Q.max_comm (y1 a) (y1 b)).
  rewrite (Q.min_comm (x2 a) (x2 b)), (Q.min_comm (y2 a) (y2 b)).
  reflexivity.
Qed.

(** Dividing equal rationals gives the same float. *)
Lemma np_div_compat (a a' b b' : Q) :
  a == a' -> b == b' ->
  match np_div a b, np_div a' b' with
  | Fin p, Fin q => p == q
  | PosInf, PosInf | NegInf, NegInf | NaN, NaN => True
  | _, _ => False
  end.
Proof.
  intros Ha Hb; unfold np_div.
  assert (E1 : Qeq_bool b 0 = Qeq_bool b' 0)
    by (apply Qeqb_comp; [exact Hb | reflexivity]).
  assert (E2 : Qeq_bool a 0 = Qeq_bool a' 0)
    by (apply Qeqb_comp; [exact Ha | reflexivity]).
  assert (E3 : Qle_bool 0 a = Qle_bool 0 a')
    by (apply Qleb_comp; [reflexivity | exact Ha]).
  rewrite <- E1, <- E2, <- E3.
  destruct (Qeq_bool b 0); [| now rewrite Ha, Hb].
  destruct (Qeq_bool a 0); [exact I |].
  destruct (Qle_bool 0 a); exact I.
Qed.

Lemma iou_sym (a b : BBox) :
  match iou a b, iou b a with
  | Fin p, Fin q => p == q
  | PosInf, PosInf | NegInf, NegInf | NaN, NaN => True
  | _, _ => False
  end.
Proof.
  unfold iou; apply np_div_compat.
  - apply inter_area_sym.
  - rewrite (inter_area_sym a b); ring.
Qed.

Lemma iou_le_sym (a b : BBox) (t : Q) : np_le (iou a b) t = np_le (iou b a) t.
Proof.
  pose proof (iou_sym a b) as H.
  destruct (iou a b), (iou b a); cbn; try tauto; now rewrite H.
Qed.

Lemma iou_gt_sym (a b : BBox) (t : Q) : np_gt (iou a b) t = np_gt (iou b a) t.
Proof.
  pose proof (iou_sym a b) as H.
  destruct (iou a b), (iou b a); cbn; try tauto; now rewrite H.
Qed.

Lemma all_pairs_nth (p : Detection -> Detection -> bool) (l : list Detection) :
  all_pairs p l = true ->
  forall i j, (i < length l)%nat -> (j < length l)%nat -> i <> j ->
    p (nth i l no_detection) (nth j l no_detection) = true.
Proof.
  induction l as [| a l IH]; intros H i j Hi Hj Hij; cbn in Hi; [lia |].
  cbn [all_pairs] in H; apply andb_true_iff in H as [Ha Hl].
  rewrite forallb_forall in Ha.
  cbn [length] in Hj.
  destruct i as [| i], j as [| j]; cbn [nth]; [lia | | |].
  - specialize (Ha (nth j l no_detection) ltac:(apply nth_In; lia)).
    now apply andb_true_iff in Ha.
  - specialize (Ha (nth i l no_detection) ltac:(apply nth_In; lia)).
    now apply andb_true_iff in Ha.
  - apply IH; [exact Hl | lia | lia | lia].
Qed.

Lemma all_pairs_ordered (p : Detection -> Detection -> bool) (l : list Detection) :
  (forall a b, p a b = p b a) ->
  ForallOrdPairs (fun a b => p a b = true) l -> all_pairs p l = true.
Proof.
  intros Hsym; induction 1 as [| a l Ha Hl IH]; cbn [all_pairs]; [reflexivity |].
  rewrite IH, andb_true_r.
  apply forallb_forall; intros b Hb.
  rewrite Forall_forall in Ha.
  rewrite <- (Hsym a b), (Ha b Hb); reflexivity.
Qed.

Lemma all_pairs_impl (p q : Detection -> Detection -> bool) (l : list Detection) :
  (forall a b, p a b = true -> q a b = true) ->
  all_pairs p l = true -> all_pairs q l = true.
Proof.
  intros Hpq; induction l as [| a l IH]; cbn [all_pairs]; [reflexivity |].
  intros H; apply andb_true_iff in H as [Ha Hl].
  rewrite (IH Hl), andb_true_r.
  rewrite forallb_forall in *; intros b Hb.
  specialize (Ha b Hb); apply andb_true_iff in Ha as [H1 H2].
  now rewrite (Hpq _ _ H1), (Hpq _ _ H2).
Qed.

Lemma ForallOrdPairs_map {A B : Type} (R : B -> B -> Prop) (f : A -> B)
  (l : list A) :
  ForallOrdPairs (fun a b => R (f a) (f b)) l -> ForallOrdPairs R (map f l).
Proof.
  induction 1 as [| a l Ha Hl IH]; cbn; constructor; [| exact IH].
  now apply Forall_map.
Qed.

End OverlapFacts.

Section MergeFacts.

Import Nms.

Variable all_detections : list Detection.
Variable iou_threshold : Q.

Let det (i : nat) : Detection := nth i all_detections no_detection.

Lemma box_at_map (i : nat) : box_at (map bbox all_detections) i = bbox (det i).
Proof. unfold box_at, det; apply (map_nth bbox all_detections no_detection). Qed.

Lemma score_at_map (i : nat) :
  score_at (map confidence all_detections) i = confidence (det i).
Proof. unfold score_at, det; apply (map_nth confidence all_detections no_detection). Qed.

Lemma processing_order_perm :
  Permutation (processing_order all_detections) (seq 0 (length all_detections)).
Proof.
  unfold processing_order.
  rewrite <- Permutation_rev, argsort_perm, length_map; reflexivity.
Qed.

Lemma processing_order_sorted :
  StronglySorted (considered_before (map confidence all_detections))
                 (processing_order all_detections).
Proof. apply StronglySorted_rev, argsort_sorted. Qed.

Lemma processing_order_NoDup : NoDup (processing_order all_detections).
Proof.
  apply (Permutation_NoDup (Permutation_sym processing_order_perm)), seq_NoDup.
Qed.

Lemma processing_order_In (i : nat) :
  In i (processing_order all_detections) <-> (i < length all_detections)%nat.
Proof.
  split; intros H.
  - apply (Permutation_in _ processing_order_perm), in_seq in H; lia.
  - apply (Permutation_in _ (Permutation_sym processing_order_perm)), in_seq; lia.
Qed.

Lemma processing_order_length :
  length (processing_order all_detections) = length all_detections.
Proof. now rewrite (Permutation_length processing_order_perm), length_seq. Qed.

Lemma merge_detections_eq :
  merge_detections all_detections iou_threshold =
  map det (kept_indices all_detections iou_threshold).
Proof.
  unfold merge_detections, det.
  destruct all_detections; reflexivity.
Qed.

Lemma kept_indices_lt (i : nat) :
  In i (kept_indices all_detections iou_threshold) ->
  (i < length all_detections)%nat.
Proof.
  unfold kept_indices; intros H.
  apply (nms_loop_incl (map bbox all_detections) iou_threshold _ _ i) in H.
  now apply processing_order_In.
Qed.

Lemma kept_indices_NoDup : NoDup (kept_indices all_detections iou_threshold).
Proof. unfold kept_indices; apply nms_loop_NoDup, processing_order_NoDup. Qed.

(** The fuel given to the loop is never exhausted: any larger amount keeps
    the same positions. *)
Lemma kept_indices_fuel (extra : nat) :
  nms_loop (map bbox all_detections) iou_threshold
           (length (processing_order all_detections) + extra)
           (processing_order all_detections)
  = kept_indices all_detections iou_threshold.
Proof. unfold kept_indices; apply nms_loop_fuel_enough; lia. Qed.

Lemma merge_detections_In (d : Detection) :
  In d (merge_detections all_detections iou_threshold) -> In d all_detections.
Proof.
  rewrite merge_detections_eq; intros H.
  apply in_map_iff in H as (i & <- & Hi).
  apply nth_In; now apply kept_indices_lt.
Qed.

Lemma merge_detections_descending :
  confidence_descending (merge_detections all_detections iou_threshold).
Proof.
  rewrite merge_detections_eq; apply StronglySorted_map.
  apply (StronglySorted_weaken (considered_before (map confidence all_detections))).
  - intros i j; unfold considered_before; rewrite !score_at_map.
    intros [H | [H _]]; lra.
  - unfold kept_indices; apply nms_loop_sorted, processing_order_sorted.
Qed.

Lemma merge_detections_separated :
  pairwise_separated iou_threshold
    (merge_detections all_detections iou_threshold) = true.
Proof.
  rewrite merge_detections_eq; unfold pairwise_separated, kept_indices.
  apply all_pairs_ordered; [intros a b; apply iou_le_sym |].
  apply ForallOrdPairs_map.
  pose proof (nms_loop_separated (map bbox all_detections) iou_threshold
                (length (processing_order all_detections))
                (processing_order all_detections)) as H.
  induction H as [| i l Hi Hl IH]; constructor; [| exact IH].
  eapply Forall_impl; [| exact Hi]; cbn; intros j.
  now rewrite !box_at_map.
Qed.

(** On a list whose pairs all pass the overlap test, the merger keeps every
    position, in processing order. *)
Lemma merge_detections_of_separated :
  pairwise_separated iou_threshold all_detections = true ->
  merge_detections all_detections iou_threshold =
  map det (processing_order all_detections).
Proof.
  intros Hsep; rewrite merge_detections_eq; f_equal.
  unfold kept_indices.
  apply nms_loop_keeps_all; [apply processing_order_NoDup | | lia].
  intros i j Hi Hj Hij; rewrite !box_at_map.
  apply processing_order_In in Hi, Hj.
  now apply (all_pairs_nth _ _ Hsep).
Qed.

Lemma map_det_perm (l : list nat) :
  Permutation l (seq 0 (length all_detections)) ->
  Permutation (map det l) all_detections.
Proof.
  intros H; rewrite (Permutation_map det H).
  unfold det; now rewrite map_nth_seq.
Qed.

(** With strictly decreasing confidences the processing order is the input
    order. *)
Lemma processing_order_of_strictly_descending :
  confidence_descending all_detections ->
  distinct_confidences all_detections = true ->
  processing_order all_detections = seq 0 (length all_detections).
Proof.
  intros Hdesc Hdist.
  apply (StronglySorted_unique (considered_before (map confidence all_detections))).
  - apply considered_before_asym.
  - apply processing_order_sorted.
  - apply StronglySorted_seq; intros i j _ Hij Hj; cbn in Hj.
    left; rewrite !score_at_map; unfold det.
    pose proof (StronglySorted_nth _ _ no_detection Hdesc i j Hij Hj) as Hle.
    pose proof (all_pairs_nth _ _ Hdist i j ltac:(lia) Hj ltac:(lia)) as Hne.
    cbn in Hle, Hne.
    apply negb_true_iff, Qeq_bool_neq in Hne.
    apply Qle_lteq in Hle as [Hlt | Heq]; [exact Hlt |].
    exfalso; apply Hne; now symmetry.
  - apply processing_order_perm.
Qed.

End MergeFacts.

Section MergerClaims.

Import Nms.

Lemma fold_left_Qmax_bounded (cs : list Q) (c : Q) :
  Forall (fun x => x <= c) cs -> fold_left Qmax cs c == c.
Proof.
  revert c; induction cs as [| x cs IH]; intros c H; cbn [fold_left];
    [reflexivity |].
  inversion H as [| ? ? Hx Hcs]; subst.
  assert (Hm : Qmax c x == c) by now apply Q.max_l.
  rewrite IH; [exact Hm |].
  eapply Forall_impl; [| exact Hcs]; cbn; intros y Hy; rewrite Hm; exact Hy.
Qed.

Lemma max_confidence_head (l : list Detection) :
  confidence_descending l ->
  max_confidence l == confidence (hd no_detection l).
Proof.
  unfold confidence_descending, max_confidence.
  destruct 1 as [| d l Hs Hd]; cbn [map hd]; [reflexivity |].
  apply fold_left_Qmax_bounded, Forall_map; exact Hd.
Qed.

Lemma descending_head_max (l : list Detection) (d : Detection) :
  confidence_descending l -> In d l ->
  confidence d <= confidence (hd no_detection l).
Proof.
  destruct 1 as [| a l Hs Ha]; intros Hin; [destruct Hin |]; cbn [hd].
  destruct Hin as [-> | Hin]; [apply Qle_refl |].
  rewrite Forall_forall in Ha; now apply Ha.
Qed.

(** C10: for every input list the merger's output consists of input
    detections taken unchanged at pairwise distinct input positions, and it
    is ordered by non-increasing confidence, so its first element has
    maximal confidence among the kept detections; the list that detect of
    pi-detector reports on is such an output, left unsorted, and the maximum
    it reports is the confidence of its first element. *)
Theorem nms_merge_selects_in_descending_order
  (detections : list Detection) (iou_threshold : Q) :
  let merged := nms_merge detections iou_threshold in
  (exists positions,
     NoDup positions /\
     Forall (fun i => (i < length detections)%nat) positions /\
     merged = map (fun i => nth i detections no_detection) positions) /\
  (forall d, In d merged -> In d detections) /\
  confidence_descending merged /\
  (forall d, In d merged -> confidence d <= confidence (hd no_detection merged)) /\
  (forall sliced tile_detections full_detections,
     let final := pi_final_detections sliced tile_detections full_detections in
     confidence_descending final /\
     max_confidence final == confidence (hd no_detection final)).
Proof.
  intros merged; unfold merged, nms_merge.
  pose proof (merge_detections_descending detections iou_threshold) as Hdesc.
  split; [| split; [| split; [| split]]].
  - exists (kept_indices detections iou_threshold); split; [| split].
    + apply kept_indices_NoDup.
    + rewrite Forall_forall; intros i; apply kept_indices_lt.
    + apply merge_detections_eq.
  - intros d; apply merge_detections_In.
  - exact Hdesc.
  - intros d; now apply descending_head_max.
  - intros sliced tiles full; unfold pi_final_detections, nms_merge.
    split; [apply merge_detections_descending |].
    apply max_confidence_head, merge_detections_descending.
Qed.

(** C8, as amended: for every input list (the empty one included) the
    merger's output satisfies the DetectionSet invariant -- every pair of
    its detections has IoU at most the threshold, so none has IoU greater --
    and merging that output again with the same threshold returns the same
    detections: a permutation of the output, and the output itself whenever
    no two of its detections have equal confidence. *)
Theorem merge_detections_invariant_and_remerge
  (all_detections : list Detection) (iou_threshold : Q) :
  let merged := merge_detections all_detections iou_threshold in
  pairwise_separated iou_threshold merged = true /\
  no_pair_above iou_threshold merged = true /\
  Permutation (merge_detections merged iou_threshold) merged /\
  (distinct_confidences merged = true ->
   merge_detections merged iou_threshold = merged).
Proof.
  intros merged.
  pose proof (merge_detections_separated all_detections iou_threshold) as Hsep.
  fold merged in Hsep.
  split; [exact Hsep |]; split; [| split].
  - revert Hsep; apply all_pairs_impl; intros a b H.
    now rewrite (np_le_not_gt _ _ H).
  - rewrite (merge_detections_of_separated merged iou_threshold Hsep).
    apply map_det_perm, processing_order_perm.
  - intros Hdist.
    rewrite (merge_detections_of_separated merged iou_threshold Hsep).
    rewrite processing_order_of_strictly_descending;
      [apply map_nth_seq | apply merge_detections_descending | exact Hdist].
Qed.

Lemma nms_merge_selects_in_descending_order_witness :
  let detections :=
    [person 0 0 10 10 0.5; person 1 0 11 10 0.9; person 100 100 110 110 0.7] in
  In (person 1 0 11 10 0.9) (nms_merge detections 0.4) /\
  In (person 1 0 11 10 0.9) detections /\
  confidence (person 100 100 110 110 0.7)
  <= confidence (hd no_detection (nms_merge detections 0.4)).
Proof.
  intros detections.
  destruct (nms_merge_selects_in_descending_order detections 0.4)
    as (_ & Hin & _ & Hmax & _).
  assert (H1 : In (person 1 0 11 10 0.9) (nms_merge detections 0.4))
    by (vm_compute; tauto).
  assert (H2 : In (person 100 100 110 110 0.7) (nms_merge detections 0.4))
    by (vm_compute; tauto).
  split; [exact H1 |]; split; [exact (Hin _ H1) | exact (Hmax _ H2)].
Defined.

Lemma merge_detections_invariant_and_remerge_witness :
  let l :=
    [person 0 0 10 10 0.5; person 1 0 11 10 0.9; person 100 100 110 110 0.7] in
  distinct_confidences (merge_detections l 0.4) = true /\
  merge_detections (merge_detections l 0.4) 0.4 = merge_detections l 0.4.
Proof.
  intros l.
  assert (H : distinct_confidences (merge_detections l 0.4) = true)
    by (vm_compute; reflexivity).
  split; [exact H |].
  destruct (merge_detections_invariant_and_remerge l 0.4) as (_ & _ & _ & Heq).
  exact (Heq H).
Defined.

(** C8 fails as stated: two far-apart detections of equal confidence are
    both kept, the later one first; merging that output again swaps them, so
    the second pass does not return its input unchanged. *)
Lemma merge_detections_remerge_swaps_ties :
  let a := person 0 0 10 10 0.9 in
  let b := person 100 100 110 110 0.9 in
  merge_detections [a; b] 0.4 = [b; a] /\
  merge_detections (merge_detections [a; b] 0.4) 0.4 = [a; b] /\
  merge_detections (merge_detections [a; b] 0.4) 0.4
  <> merge_detections [a; b] 0.4.
Proof.
  cbn zeta; split; [vm_compute; reflexivity |].
  split; [vm_compute; reflexivity |].
  intros H; vm_compute in H; discriminate H.
Qed.

Lemma processing_order_pair (a b : Detection) :
  processing_order [a; b] =
  if Qle_bool (confidence a) (confidence b) then [1%nat; 0%nat]
  else [0%nat; 1%nat].
Proof.
  unfold processing_order, argsort.
  cbn [map length seq fold_left insert score_at nth].
  destruct (Qle_bool (confidence a) (confidence b)); reflexivity.
Qed.

Lemma merge_detections_all_overlapping (l : list Detection) (iou_threshold : Q) :
  l <> [] -> mutually_overlapping iou_threshold l = true ->
  exists i,
    processing_order l = i :: tl (processing_order l) /\
    merge_detections l iou_threshold = [nth i l no_detection] /\
    (i < length l)%nat /\
    forall d, In d l -> confidence d <= confidence (nth i l no_detection).
Proof.
  intros Hne Hov.
  pose proof (processing_order_NoDup l) as Hnd.
  pose proof (processing_order_sorted l) as Hs.
  pose proof (processing_order_length l) as Hlen.
  pose proof (processing_order_In l) as Hin.
  rewrite merge_detections_eq; unfold kept_indices.
  destruct (processing_order l) as [| i rest].
  { destruct l; [congruence | cbn in Hlen; lia]. }
  exists i; split; [reflexivity |].
  inversion Hnd as [| ? ? Hi Hrest]; subst.
  inversion Hs as [| ? ? Hsr Hir]; subst.
  assert (Hil : (i < length l)%nat) by (apply Hin; now left).
  split; [| split; [exact Hil |]].
  - cbn [length]; rewrite nms_loop_head_only; [reflexivity |].
    intros j Hj; rewrite !box_at_map.
    apply np_gt_not_le.
    apply (all_pairs_nth _ _ Hov); [exact Hil | apply Hin; now right |].
    intros ->; tauto.
  - intros d Hd.
    apply (In_nth _ _ no_detection) in Hd as (k & Hk & <-).
    apply Hin in Hk as [<- | Hk]; [apply Qle_refl |].
    rewrite Forall_forall in Hir; specialize (Hir k Hk).
    unfold considered_before in Hir; rewrite !score_at_map in Hir.
    destruct Hir as [H | [H _]]; lra.
Qed.

(** C7: two detections whose IoU exceeds the threshold and whose
    confidences differ are merged into the higher-confidence one alone; two
    detections whose IoU is below the threshold are both kept; and every
    non-empty list whose detections all pairwise overlap above the threshold
    is merged into exactly one detection, of maximal input confidence. *)
Theorem merge_detections_suppresses_overlaps (iou_threshold : Q) :
  (forall a b,
     np_gt (iou (bbox a) (bbox b)) iou_threshold = true ->
     ~ confidence a == confidence b ->
     merge_detections [a; b] iou_threshold =
       [if Qle_bool (confidence a) (confidence b) then b else a]) /\
  (forall a b,
     np_lt (iou (bbox a) (bbox b)) iou_threshold = true ->
     Permutation (merge_detections [a; b] iou_threshold) [a; b] /\
     length (merge_detections [a; b] iou_threshold) = 2%nat) /\
  (forall l,
     l <> [] -> mutually_overlapping iou_threshold l = true ->
     exists d,
       merge_detections l iou_threshold = [d] /\ In d l /\
       forall d', In d' l -> confidence d' <= confidence d).
Proof.
  split; [| split].
  - intros a b Hgt Hne.
    assert (Hov : mutually_overlapping iou_threshold [a; b] = true).
    { unfold mutually_overlapping; cbn [all_pairs forallb].
      now rewrite <- (iou_gt_sym (bbox a) (bbox b)), Hgt. }
    destruct (merge_detections_all_overlapping [a; b] iou_threshold
                ltac:(discriminate) Hov) as (i & Hord & Hm & _ & _).
    rewrite Hm; f_equal.
    rewrite processing_order_pair in Hord.
    destruct (Qle_bool (confidence a) (confidence b));
      cbn [tl] in Hord; injection Hord as <-; reflexivity.
  - intros a b Hlt.
    assert (Hsep : pairwise_separated iou_threshold [a; b] = true).
    { unfold pairwise_separated; cbn [all_pairs forallb].
      rewrite <- (iou_le_sym (bbox a) (bbox b)).
      now rewrite (np_lt_le _ _ Hlt). }
    assert (Hp : Permutation (merge_detections [a; b] iou_threshold) [a; b]).
    { rewrite (merge_detections_of_separated _ _ Hsep).
      apply map_det_perm, processing_order_perm. }
    split; [exact Hp | exact (Permutation_length Hp)].
  - intros l Hne Hov.
    destruct (merge_detections_all_overlapping l iou_threshold Hne Hov)
      as (i & _ & Hm & Hi & Hmax).
    exists (nth i l no_detection); split; [exact Hm |].
    split; [now apply nth_In | exact Hmax].
Qed.

Lemma merge_detections_suppresses_overlaps_witness :
  let l := [person 100 100 150 150 0.6; person 102 100 152 150 0.9;
            person 100 103 150 153 0.7; person 103 102 153 152 0.8] in
  l <> [] /\ mutually_overlapping 0.4 l = true /\
  exists d,
    merge_detections l 0.4 = [d] /\ In d l /\
    forall d', In d' l -> confidence d' <= confidence d.
Proof.
  intros l.
  assert (H1 : l <> []) by discriminate.
  assert (H2 : mutually_overlapping 0.4 l = true) by (vm_compute; reflexivity).
  split; [exact H1 |]; split; [exact H2 |].
  destruct (merge_detections_suppresses_overlaps 0.4) as (_ & _ & Hall).
  exact (Hall l H1 H2).
Defined.




End MergerClaims.

(** ** Command line of [yolo-detector.py] *)

Section YoloCliFacts.

Import YoloCli.

Variable path_exists : string -> bool.
Variable run_model : string -> string -> result (list Box).

(** A missing image always yields a structured failure; whether the process
    then exits with a non-zero status depends on the output format. *)
Lemma main_on_missing_image (args : Args) :
  path_exists (image_path args) = false ->
  let failure := Failure ("Image not found: " ++ image_path args)%string in
  detect_persons path_exists run_model
    (image_path args) (model args) (confidence args) = failure /\
  success failure = false /\
  main path_exists run_model args =
    if json args then (JsonDump failure, 0%Z)
    else (ErrorLine ("Image not found: " ++ image_path args)%string, 1%Z).
Proof.
  intros Hmissing; cbn zeta.
  assert (Hd : detect_persons path_exists run_model
                 (image_path args) (model args) (confidence args)
               = Failure ("Image not found: " ++ image_path args)%string)
    by (unfold detect_persons; now rewrite Hmissing).
  split; [exact Hd |]; split; [reflexivity |].
  unfold main; rewrite Hd; reflexivity.
Qed.

End YoloCliFacts.

(** C4, where the code departs from it: run on a path that does not exist
    with --json, the detector prints the structured failure (success = false
    with an error message) and then exits with status 0; without --json the
    same failure exits with status 1. *)
Theorem main_missing_image_json_exits_zero :
  let missing := fun _ : string => false in
  let run_model := fun _ _ : string => Return [] in
  let args json :=
    {| YoloCli.image_path := "missing.jpg"; YoloCli.model := "yolov8m.pt";
       YoloCli.confidence := 0.5; YoloCli.save_annotated := false;
       YoloCli.json := json |} in
  YoloCli.main missing run_model (args true) =
    (YoloCli.JsonDump (YoloCli.Failure "Image not found: missing.jpg"), 0%Z) /\
  YoloCli.main missing run_model (args false) =
    (YoloCli.ErrorLine "Image not found: missing.jpg", 1%Z).
Proof. split; reflexivity. Qed.

(** * Further properties of the code *)

(** ** Rounding and truncation *)

Section RoundingFacts.

Import Stats.

Lemma py_round_bounds (x : Q) :
  (Qfloor x <= py_round x <= Qfloor x + 1)%Z.
Proof.
  unfold py_round.
  destruct (Qcompare _ _); [destruct (Z.even _) | |]; lia.
Qed.

Lemma py_round_monotone (x y : Q) : x <= y -> (py_round x <= py_round y)%Z.
Proof.
  intros Hxy.
  pose proof (Qfloor_resp_le x y Hxy) as Hf.
  pose proof (py_round_bounds x) as Hx.
  pose proof (py_round_bounds y) as Hy.
  destruct (Z.eq_dec (Qfloor x) (Qfloor y)) as [E | NE]; [| lia].
  unfold py_round; rewrite <- E.
  destruct (Qcompare_spec (x - inject_Z (Qfloor x)) 0.5) as [Ex | Ex | Ex];
    destruct (Qcompare_spec (y - inject_Z (Qfloor x)) 0.5) as [Ey | Ey | Ey];
    try destruct (Z.even (Qfloor x)); try lia; lra.
Qed.

Lemma py_round_Z (z : Z) : py_round (inject_Z z) = z.
Proof.
  unfold py_round; rewrite Qfloor_Z.
  destruct (Qcompare_spec (inject_Z z - inject_Z z) 0.5) as [E | E | E];
    [lra | reflexivity | lra].
Qed.

Lemma py_round_comp (x y : Q) : x == y -> py_round x = py_round y.
Proof.
  intros E; apply Z.le_antisymm; apply py_round_monotone; rewrite E;
    apply Qle_refl.
Qed.

Lemma py_round3_monotone (x y : Q) : x <= y -> py_round3 x <= py_round3 y.
Proof.
  intros Hxy; unfold py_round3.
  assert (H : (py_round (x * 1000) <= py_round (y * 1000))%Z)
    by (apply py_round_monotone; lra).
  rewrite Zle_Qle in H; qconst; lra.
Qed.

(** A value with at most three decimals is its own rounding. *)
Lemma py_round3_exact (z : Z) : py_round3 (inject_Z z / 1000) == inject_Z z / 1000.
Proof.
  unfold py_round3.
  rewrite (py_round_comp (inject_Z z / 1000 * 1000) (inject_Z z)), py_round_Z;
    [reflexivity | field].
Qed.

Lemma py_int_nonpos (x : Q) : x <= 0 -> py_int x = (- Qfloor (- x))%Z.
Proof.
  destruct x as [n d]; unfold py_int, Qfloor, Qle, Qopp; cbn; intros H.
  rewrite <- (Z.opp_involutive n) at 1.
  rewrite Z.quot_opp_l by lia.
  f_equal; apply Z.quot_div_nonneg; lia.
Qed.

Lemma py_int_monotone (x y : Q) : x <= y -> (py_int x <= py_int y)%Z.
Proof.
  intros Hxy.
  destruct (Qlt_le_dec x 0) as [Hx | Hx], (Qlt_le_dec y 0) as [Hy | Hy].
  - rewrite !py_int_nonpos by lra.
    assert (Qfloor (- y) <= Qfloor (- x))%Z by (apply Qfloor_resp_le; lra).
    lia.
  - rewrite py_int_nonpos by lra; rewrite (py_int_nonneg_floor y) by exact Hy.
    assert (0 <= Qfloor (- x))%Z
      by (change 0%Z with (Qfloor 0); apply Qfloor_resp_le; lra).
    assert (0 <= Qfloor y)%Z
      by (change 0%Z with (Qfloor 0); apply Qfloor_resp_le; lra).
    lia.
  - lra.
  - rewrite !py_int_nonneg_floor by lra; now apply Qfloor_resp_le.
Qed.

End RoundingFacts.

(** ** Busyness scorer: order, saturation, unchecked areas *)

Section BusynessMore.

Import Busyness BusynessOrder.

Lemma calculate_busyness_value (person_count : Z) (beach_area_sqm : Q) :
  ~ beach_area_sqm == 0 ->
  let d := spec_density person_count beach_area_sqm in
  calculate_busyness person_count beach_area_sqm =
  Return {| score := fst (score_level d); level := snd (score_level d);
            density := py_round2 d |}.
Proof.
  intros Hne d; unfold calculate_busyness.
  destruct (Qeq_bool beach_area_sqm 0) eqn:E; [apply Qeq_bool_iff in E; tauto |].
  fold (spec_density person_count beach_area_sqm); fold d.
  now destruct (score_level d).
Qed.

Lemma spec_density_monotone (n1 n2 : Z) (area : Q) :
  (n1 <= n2)%Z -> 0 < area -> spec_density n1 area <= spec_density n2 area.
Proof.
  intros Hn Ha; unfold spec_density.
  apply Qmult_le_compat_r; [| lra].
  unfold Qdiv; apply Qmult_le_compat_r.
  - now rewrite <- Zle_Qle.
  - apply Qlt_le_weak, Qinv_lt_0_compat, Ha.
Qed.

(** The branch taken for a non-negative density, with the range of its
    score. *)
Lemma score_level_cases (d : Q) :
  0 <= d ->
  (d <= 0.5 /\ score_level d = (Qfloor (d / 0.5 * 25), quiet) /\
   (0 <= Qfloor (d / 0.5 * 25) <= 25)%Z) \/
  (0.5 < d /\ d <= 2.0 /\
   score_level d = (Qfloor (25 + (d - 0.5) / 1.5 * 25), moderate) /\
   (25 <= Qfloor (25 + (d - 0.5) / 1.5 * 25) <= 50)%Z) \/
  (2.0 < d /\ d <= 4.0 /\
   score_level d = (Qfloor (50 + (d - 2.0) / 2.0 * 25), busy) /\
   (50 <= Qfloor (50 + (d - 2.0) / 2.0 * 25) <= 75)%Z) \/
  (4.0 < d /\
   score_level d = (Z.min 100 (Qfloor (75 + (d - 4.0) / 4.0 * 25)), very_busy) /\
   (75 <= Qfloor (75 + (d - 4.0) / 4.0 * 25))%Z).
Proof.
  intros Hd; rewrite (score_level_floor d Hd).
  destruct (Qle_bool d 0.5) eqn:E1.
  { apply Qle_bool_iff in E1; left; split; [exact E1 |]; split; [reflexivity |].
    apply Qfloor_between; unfold inject_Z; qconst; lra. }
  apply Qle_bool_false_lt in E1.
  destruct (Qle_bool d 2.0) eqn:E2.
  { apply Qle_bool_iff in E2; right; left.
    repeat (split; [first [assumption | reflexivity] |]).
    apply Qfloor_between; unfold inject_Z; qconst; lra. }
  apply Qle_bool_false_lt in E2.
  destruct (Qle_bool d 4.0) eqn:E3.
  { apply Qle_bool_iff in E3; right; right; left.
    repeat (split; [first [assumption | reflexivity] |]).
    apply Qfloor_between; unfold inject_Z; qconst; lra. }
  apply Qle_bool_false_lt in E3; right; right; right.
  repeat (split; [first [assumption | reflexivity] |]).
  apply (Qfloor_resp_le 75); qconst; lra.
Qed.

(** Score and level never decrease when the density grows. *)
Lemma score_level_monotone (d1 d2 : Q) :
  0 <= d1 -> d1 <= d2 ->
  (fst (score_level d1) <= fst (score_level d2))%Z /\
  (level_rank (snd (score_level d1)) <= level_rank (snd (score_level d2)))%Z.
Proof.
  intros H0 H12.
  destruct (score_level_cases d1 H0)
    as [(A & -> & B) | [(A & A' & -> & B) | [(A & A' & -> & B) | (A & -> & B)]]];
  destruct (score_level_cases d2 ltac:(lra))
    as [(C & -> & D) | [(C & C' & -> & D) | [(C & C' & -> & D) | (C & -> & D)]]];
  try lra; cbn [fst snd level_rank]; (split; [| lia]); try lia.
  - apply Qfloor_resp_le; qconst; lra.
  - apply Qfloor_resp_le; qconst; lra.
  - apply Qfloor_resp_le; qconst; lra.
  - apply Z.min_le_compat_l, Qfloor_resp_le; qconst; lra.
Qed.

(** X1: the score and the level never decrease when more persons are counted on
    the same area. *)
Theorem calculate_busyness_monotone (n1 n2 : Z) (beach_area_sqm : Q)
  (Hn1 : (0 <= n1)%Z) (Hn : (n1 <= n2)%Z) (Harea : 0 < beach_area_sqm) :
  exists r1 r2,
    calculate_busyness n1 beach_area_sqm = Return r1 /\
    calculate_busyness n2 beach_area_sqm = Return r2 /\
    (score r1 <= score r2)%Z /\
    (level_rank (level r1) <= level_rank (level r2))%Z.
Proof.
  do 2 eexists.
  split; [apply calculate_busyness_value; lra |].
  split; [apply calculate_busyness_value; lra |].
  cbn [score level]; apply score_level_monotone.
  - now apply density_nonneg.
  - now apply spec_density_monotone.
Qed.

Lemma calculate_busyness_monotone_witness :
  (0 <= 40)%Z /\ (40 <= 90)%Z /\ 0 < 3000 /\
  exists r1 r2,
    calculate_busyness 40 3000 = Return r1 /\
    calculate_busyness 90 3000 = Return r2 /\
    (score r1 <= score r2)%Z.
Proof.
  split; [lia |]; split; [lia |]; split; [reflexivity |].
  destruct (calculate_busyness_monotone 40 90 3000)
    as (r1 & r2 & H1 & H2 & Hs & _); [lia | lia | reflexivity |].
  exists r1, r2; repeat split; assumption.
Defined.

(** X2: the score reaches 100 exactly from a density of 8 persons per 100 area
    units on; below that it stays under 100. *)
Theorem calculate_busyness_saturates (person_count : Z) (beach_area_sqm : Q)
  (Hcount : (0 <= person_count)%Z) (Harea : 0 < beach_area_sqm) :
  exists r,
    calculate_busyness person_count beach_area_sqm = Return r /\
    (score r = 100%Z <-> 8 <= spec_density person_count beach_area_sqm) /\
    (level r = very_busy <-> 4 < spec_density person_count beach_area_sqm).
Proof.
  eexists; split; [apply calculate_busyness_value; lra |].
  cbn [score level].
  pose proof (density_nonneg person_count beach_area_sqm Hcount Harea) as Hd.
  set (d := spec_density person_count beach_area_sqm) in *.
  destruct (score_level_cases d Hd)
    as [(A & -> & B) | [(A & A' & -> & B) | [(A & A' & -> & B) | (A & -> & B)]]];
    cbn [fst snd].
  1-3: split; split; intros H; first [lia | lra | discriminate H].
  split; [| split; [intros _; lra | reflexivity]].
  split; intros H.
  - assert (H100 : (100 <= Qfloor (75 + (d - 4.0) / 4.0 * 25))%Z) by lia.
    pose proof (Qfloor_le (75 + (d - 4.0) / 4.0 * 25)) as Hf.
    rewrite Zle_Qle in H100.
    revert Hf H100; unfold inject_Z; qconst; intros; lra.
  - assert (H100 : (Qfloor 100 <= Qfloor (75 + (d - 4.0) / 4.0 * 25))%Z)
      by (apply Qfloor_resp_le; qconst; lra).
    change (Qfloor 100) with 100%Z in H100; lia.
Qed.

Lemma calculate_busyness_saturates_witness :
  (0 <= 400)%Z /\ 0 < 5000 /\
  exists r, calculate_busyness 400 5000 = Return r /\ score r = 100%Z.
Proof.
  split; [lia |]; split; [reflexivity |].
  destruct (calculate_busyness_saturates 400 5000) as (r & Hr & Hs & _);
    [lia | reflexivity |].
  exists r; split; [exact Hr |].
  apply Hs; vm_compute; congruence.
Defined.

(** X3: a negative area is not rejected: every count then falls into "quiet"
    with a score that is zero or negative, negative as soon as the density
    is at most -0.02. *)
Theorem calculate_busyness_negative_area (person_count : Z) (beach_area_sqm : Q)
  (Hcount : (0 <= person_count)%Z) (Harea : beach_area_sqm < 0) :
  exists r,
    calculate_busyness person_count beach_area_sqm = Return r /\
    level r = quiet /\ (score r <= 0)%Z /\
    ((score r < 0)%Z <-> spec_density person_count beach_area_sqm <= - 0.02).
Proof.
  eexists; split; [apply calculate_busyness_value; lra |].
  cbn [score level].
  assert (Hd : spec_density person_count beach_area_sqm <= 0).
  { unfold spec_density.
    assert (H : inject_Z person_count / beach_area_sqm <= 0).
    { unfold Qdiv.
      assert (Hi : / beach_area_sqm < 0).
      { destruct (Qlt_le_dec (/ beach_area_sqm) 0) as [E | E]; [exact E |].
        exfalso.
        assert (Hm : beach_area_sqm * / beach_area_sqm == 1)
          by (apply Qmult_inv_r; lra).
        nra. }
      assert (Hc : 0 <= inject_Z person_count)
        by (change 0 with (inject_Z 0); now rewrite <- Zle_Qle).
      nra. }
    lra. }
  set (d := spec_density person_count beach_area_sqm) in *.
  unfold score_level.
  assert (E : Qle_bool d 0.5 = true) by (apply Qle_bool_iff; lra).
  rewrite E; cbn [fst snd].
  split; [reflexivity |].
  rewrite py_int_nonpos by (qconst; lra).
  assert (H0 : (0 <= Qfloor (- (d / 0.5 * 25)))%Z)
    by (change 0%Z with (Qfloor 0); apply Qfloor_resp_le; qconst; lra).
  split; [lia |].
  split; intros H.
  - assert (H1 : (1 <= Qfloor (- (d / 0.5 * 25)))%Z) by lia.
    pose proof (Qfloor_le (- (d / 0.5 * 25))) as Hf.
    rewrite Zle_Qle in H1.
    revert Hf H1; unfold inject_Z; qconst; intros; lra.
  - assert (H1 : (Qfloor 1 <= Qfloor (- (d / 0.5 * 25)))%Z)
      by (apply Qfloor_resp_le; revert H; qconst; intros; lra).
    change (Qfloor 1) with 1%Z in H1; lia.
Qed.

Lemma calculate_busyness_negative_area_witness :
  (0 <= 10)%Z /\ -5000 < 0 /\
  exists r, calculate_busyness 10 (-5000) = Return r /\ score r = (-10)%Z.
Proof.
  split; [lia |]; split; [reflexivity |].
  destruct (calculate_busyness_negative_area 10 (-5000)) as (r & Hr & _);
    [lia | reflexivity |].
  exists r; split; [exact Hr |].
  vm_compute in Hr; injection Hr as <-; reflexivity.
Defined.

End BusynessMore.

(** ** Pixel-statistics fallback: ranges, order, report *)

Section FallbackMore.

Import PixelDensity FallbackCli.


Lemma percentage_monotone (p1 p2 total_pixels : Z) :
  (0 < total_pixels)%Z -> (p1 <= p2)%Z ->
  percentage p1 total_pixels <= percentage p2 total_pixels.
Proof.
  intros Ht Hp; unfold percentage.
  apply Qmult_le_compat_r; [| lra].
  unfold Qdiv; apply Qmult_le_compat_r; [now rewrite <- Zle_Qle |].
  apply Qlt_le_weak, Qinv_lt_0_compat.
  change 0 with (inject_Z 0); now rewrite <- Zlt_Qlt.
Qed.

Lemma estimate_persons_monotone (s1 b1 e1 s2 b2 e2 : Q) :
  s1 <= s2 -> b1 <= b2 -> e1 <= e2 ->
  (estimate_persons s1 b1 e1 <= estimate_persons s2 b2 e2)%Z.
Proof.
  intros Hs Hb He; unfold estimate_persons, avg_person_pixel_percentage.
  assert (H : (py_int ((s1 * 0.6 + b1 * 0.25 + e1 * 0.15) / 1.0)
               <= py_int ((s2 * 0.6 + b2 * 0.25 + e2 * 0.15) / 1.0))%Z)
    by (apply py_int_monotone; qconst; lra).
  lia.
Qed.

Lemma estimate_confidence_monotone (s1 b1 s2 b2 : Q) :
  s1 + b1 <= s2 + b2 ->
  estimate_confidence s1 b1 <= estimate_confidence s2 b2.
Proof.
  intros H; unfold estimate_confidence.
  destruct (Qle_bool 1.0 ((s1 + b1) / 2)) eqn:A1;
    [apply Qle_bool_iff in A1 | apply Qle_bool_false_lt in A1];
  (destruct (Qle_bool 3.0 ((s1 + b1) / 2)) eqn:A2;
    [apply Qle_bool_iff in A2 | apply Qle_bool_false_lt in A2]);
  (destruct (Qle_bool 6.0 ((s1 + b1) / 2)) eqn:A3;
    [apply Qle_bool_iff in A3 | apply Qle_bool_false_lt in A3]);
  (destruct (Qle_bool 1.0 ((s2 + b2) / 2)) eqn:C1;
    [apply Qle_bool_iff in C1 | apply Qle_bool_false_lt in C1]);
  (destruct (Qle_bool 3.0 ((s2 + b2) / 2)) eqn:C2;
    [apply Qle_bool_iff in C2 | apply Qle_bool_false_lt in C2]);
  (destruct (Qle_bool 6.0 ((s2 + b2) / 2)) eqn:C3;
    [apply Qle_bool_iff in C3 | apply Qle_bool_false_lt in C3]);
  cbn [negb]; try (vm_compute; congruence);
  exfalso; revert A1 A2 A3 C1 C2 C3; qconst; intros; lra.
Qed.



(** X5: more skin, bright or edge pixels on an image of the same size never
    lower the estimated count, and more skin and bright pixels never lower
    the confidence. *)
Theorem analyze_pixel_density_monotone (image_path : string)
  (c1 c2 : PixelCounts)
  (Hpixels : (0 < height c1 * width c1)%Z)
  (Hshape : (height c2 * width c2 = height c1 * width c1)%Z)
  (Hskin : (skin_pixels c1 <= skin_pixels c2)%Z)
  (Hbright : (bright_pixels c1 <= bright_pixels c2)%Z)
  (Hedge : (edge_pixels c1 <= edge_pixels c2)%Z) :
  exists e1 e2,
    analyze_pixel_density image_path true (Some c1) = Success e1 /\
    analyze_pixel_density image_path true (Some c2) = Success e2 /\
    (total_persons e1 <= total_persons e2)%Z /\
    confidence e1 <= confidence e2.
Proof.
  do 2 eexists.
  split; [apply analyze_pixel_density_succeeds; lia |].
  split; [apply analyze_pixel_density_succeeds; lia |].
  cbn [total_persons confidence]; rewrite Hshape.
  pose proof (percentage_monotone _ _ _ Hpixels Hskin).
  pose proof (percentage_monotone _ _ _ Hpixels Hbright).
  pose proof (percentage_monotone _ _ _ Hpixels Hedge).
  split; [now apply estimate_persons_monotone |].
  apply estimate_confidence_monotone; lra.
Qed.

Lemma analyze_pixel_density_monotone_witness :
  let c1 := {| height := 100; width := 100; skin_pixels := 100;
               bright_pixels := 50; edge_pixels := 200;
               activity_pixels := 120 |} in
  let c2 := {| height := 100; width := 100; skin_pixels := 900;
               bright_pixels := 400; edge_pixels := 200;
               activity_pixels := 1000 |} in
  exists e1 e2,
    analyze_pixel_density "beach.jpg" true (Some c1) = Success e1 /\
    analyze_pixel_density "beach.jpg" true (Some c2) = Success e2 /\
    (total_persons e1 <= total_persons e2)%Z.
Proof.
  intros c1 c2.
  destruct (analyze_pixel_density_monotone "beach.jpg" c1 c2)
    as (e1 & e2 & H1 & H2 & Hn & _); try (cbn; lia).
  exists e1, e2; repeat split; assumption.
Defined.





End FallbackMore.

(** ** Tiling engine outside its constraints *)

Section TilingMore.

Import Tiling.

Lemma py_range_nonzero (start stop step : Z) :
  step <> 0%Z ->
  py_range start stop step =
  Return (range_from (Z.to_nat (range_len start stop step)) start step).
Proof.
  intros H; unfold py_range.
  now destruct (Z.eqb_spec step 0).
Qed.

(** The two loops complete whenever the stride is not zero. *)
Lemma slice_image_nonzero_stride (h w slice_size : Z) (overlap : Q) :
  stride_of slice_size overlap <> 0%Z ->
  let stride := stride_of slice_size overlap in
  slice_image h w slice_size overlap =
  Return (flat_map
            (fun y => map (fun x => make_tile w h slice_size x y)
                          (range_from (Z.to_nat (range_len 0 w stride)) 0 stride))
            (range_from (Z.to_nat (range_len 0 h stride)) 0 stride)).
Proof.
  intros Hne stride; unfold slice_image; fold stride.
  rewrite (py_range_nonzero 0 h) by exact Hne; cbn [bind].
  rewrite <- for_each_return.
  apply for_each_ext; intros y.
  now rewrite (py_range_nonzero 0 w) by exact Hne.
Qed.

(** X8: an overlap of 1 or more never yields a tile: the call raises ValueError
    while slice_size * (overlap - 1) is below 1 (the stride truncates to 0),
    and returns the empty list from there on (the stride is negative and
    both walks are empty). *)
Theorem slice_image_overlap_at_least_one (h w slice_size : Z) (overlap : Q)
  (Hh : (0 <= h)%Z) (Hsize : (0 < slice_size)%Z) (Hov : 1 <= overlap) :
  (inject_Z slice_size * (overlap - 1) < 1 ->
   slice_image h w slice_size overlap = Raise "ValueError") /\
  (1 <= inject_Z slice_size * (overlap - 1) ->
   slice_image h w slice_size overlap = Return []).
Proof.
  assert (Hs : 0 < inject_Z slice_size)
    by (change 0 with (inject_Z 0); now rewrite <- Zlt_Qlt).
  assert (Hx : inject_Z slice_size * (1 - overlap) <= 0) by nra.
  assert (Hstride : stride_of slice_size overlap
                    = (- Qfloor (- (inject_Z slice_size * (1 - overlap))))%Z)
    by (unfold stride_of; now apply py_int_nonpos).
  set (x := - (inject_Z slice_size * (1 - overlap))) in *.
  assert (Ex : x == inject_Z slice_size * (overlap - 1)) by (unfold x; ring).
  split; intros H.
  - assert (E : Qfloor x = 0%Z).
    { assert (0 <= Qfloor x <= 0)%Z; [| lia].
      split; [change 0%Z with (Qfloor 0); apply Qfloor_resp_le; lra |].
      assert (Hlt : (Qfloor x < 1)%Z); [| lia].
      rewrite Zlt_Qlt.
      apply Qle_lt_trans with x; [apply Qfloor_le |].
      unfold inject_Z; lra. }
    unfold slice_image; rewrite Hstride, E; reflexivity.
  - assert (E : (1 <= Qfloor x)%Z)
      by (apply (Qfloor_resp_le 1); lra).
    rewrite slice_image_nonzero_stride by lia.
    unfold range_len at 2; rewrite Hstride.
    destruct (Z.ltb_spec 0 (- Qfloor x)) as [C | _]; [lia |].
    destruct (Z.ltb_spec h 0) as [C | _]; [lia |].
    reflexivity.
Qed.

Lemma slice_image_overlap_at_least_one_witness :
  slice_image 1440 2560 640 1 = Raise "ValueError" /\
  slice_image 1440 2560 640 1.5 = Return [].
Proof.
  split.
  - apply (slice_image_overlap_at_least_one 1440 2560 640 1);
      first [lia | vm_compute; congruence].
  - apply (slice_image_overlap_at_least_one 1440 2560 640 1.5);
      first [lia | vm_compute; congruence].
Defined.

End TilingMore.

(** ** Detection merger: what is kept and what is dropped *)

Section LoopMore.

Import Nms.

Variable boxes : list BBox.
Variable iou_threshold : Q.

(** Every position of [order] is kept or fails the overlap test against a
    kept position that comes before it. *)
Lemma nms_loop_suppressed (R : nat -> nat -> Prop) (fuel : nat)
  (order : list nat) :
  (length order <= fuel)%nat -> StronglySorted R order ->
  forall j, In j order ->
    In j (nms_loop boxes iou_threshold fuel order) \/
    exists i, In i (nms_loop boxes iou_threshold fuel order) /\
              np_le (iou (box_at boxes i) (box_at boxes j)) iou_threshold = false /\
              R i j.
Proof.
  revert order; induction fuel as [| fuel IH]; intros order Hlen Hs j Hj.
  - destruct order; [destruct Hj | cbn in Hlen; lia].
  - cbn [nms_loop].
    destruct order as [| i [| r rest]]; [destruct Hj | now left |].
    inversion Hs as [| ? ? Hrest Hi]; subst.
    destruct Hj as [-> | Hj]; [now left; left |].
    set (f := fun k => np_le (iou (box_at boxes i) (box_at boxes k)) iou_threshold).
    destruct (f j) eqn:Ej.
    + assert (Hin : In j (filter f (r :: rest))) by (apply filter_In; now split).
      pose proof (filter_length_le f (r :: rest)) as Hf.
      cbn [length] in Hlen, Hf.
      destruct (IH (filter f (r :: rest)) ltac:(lia)
                   (StronglySorted_filter R f _ Hrest) j Hin)
        as [Hk | (i' & Hi' & Hsup & HR)].
      * left; now right.
      * right; exists i'; split; [now right | now split].
    + right; exists i; split; [now left |]; split; [exact Ej |].
      rewrite Forall_forall in Hi; now apply Hi.
Qed.

(** The first position of a non-empty order is always kept first. *)
Lemma nms_loop_head (fuel : nat) (i : nat) (rest : list nat) :
  exists kept, nms_loop boxes iou_threshold (S fuel) (i :: rest) = i :: kept.
Proof. cbn [nms_loop]; destruct rest; eexists; reflexivity. Qed.

End LoopMore.

Section MergeMore.

Import Nms.

Lemma merge_detections_length_le (all_detections : list Detection)
  (iou_threshold : Q) :
  (length (merge_detections all_detections iou_threshold)
   <= length all_detections)%nat.
Proof.
  rewrite merge_detections_eq, length_map.
  apply Nat.le_trans with (length (seq 0 (length all_detections)));
    [| now rewrite length_seq].
  apply NoDup_incl_length; [apply kept_indices_NoDup |].
  intros i Hi; apply in_seq.
  pose proof (kept_indices_lt all_detections iou_threshold i Hi); lia.
Qed.

(** X9: the most confident detection always survives, first in the output; so a
    non-empty input never merges to nothing, and the output is never longer
    than the input. *)
Theorem merge_detections_keeps_most_confident
  (all_detections : list Detection) (iou_threshold : Q) :
  (length (merge_detections all_detections iou_threshold)
   <= length all_detections)%nat /\
  (all_detections <> [] ->
   exists d rest,
     merge_detections all_detections iou_threshold = d :: rest /\
     In d all_detections /\
     forall d', In d' all_detections -> confidence d' <= confidence d).
Proof.
  split; [apply merge_detections_length_le |].
  - intros Hne.
    pose proof (processing_order_sorted all_detections) as Hs.
    pose proof (processing_order_length all_detections) as Hlen.
    pose proof (processing_order_In all_detections) as Hin.
    rewrite merge_detections_eq; unfold kept_indices.
    destruct (processing_order all_detections) as [| i rest].
    { destruct all_detections; [congruence | cbn in Hlen; lia]. }
    cbn [length].
    destruct (nms_loop_head (map bbox all_detections) iou_threshold
                (length rest) i rest) as (kept & ->).
    cbn [map]; do 2 eexists; split; [reflexivity |].
    assert (Hi : (i < length all_detections)%nat) by (apply Hin; now left).
    split; [now apply nth_In |].
    intros d Hd.
    apply (In_nth _ _ no_detection) in Hd as (k & Hk & <-).
    apply Hin in Hk as [<- | Hk]; [apply Qle_refl |].
    inversion Hs as [| ? ? _ Hir]; subst.
    rewrite Forall_forall in Hir; specialize (Hir k Hk).
    unfold considered_before in Hir; rewrite !score_at_map in Hir.
    destruct Hir as [H | [H _]]; lra.
Qed.

Lemma merge_detections_keeps_most_confident_witness :
  let l := [person 0 0 10 10 0.5; person 1 0 11 10 0.9;
            person 100 100 110 110 0.7] in
  l <> [] /\
  exists d rest, merge_detections l 0.4 = d :: rest /\ In d l.
Proof.
  intros l.
  assert (H : l <> []) by discriminate.
  split; [exact H |].
  destruct (merge_detections_keeps_most_confident l 0.4) as (_ & Hk).
  destruct (Hk H) as (d & rest & Hm & Hd & _).
  exists d, rest; split; assumption.
Defined.

(** X10: nothing is dropped without cause: every input detection is either in the
    output or fails the overlap test (IoU above the threshold, or undefined)
    against an output detection that is at least as confident. *)
Theorem merge_detections_drops_only_suppressed
  (all_detections : list Detection) (iou_threshold : Q) (d : Detection)
  (Hd : In d all_detections) :
  In d (merge_detections all_detections iou_threshold) \/
  exists d',
    In d' (merge_detections all_detections iou_threshold) /\
    np_le (iou (bbox d') (bbox d)) iou_threshold = false /\
    confidence d <= confidence d'.
Proof.
  apply (In_nth _ _ no_detection) in Hd as (k & Hk & <-).
  rewrite merge_detections_eq; unfold kept_indices.
  destruct (nms_loop_suppressed (map bbox all_detections) iou_threshold
              (considered_before (map confidence all_detections))
              (length (processing_order all_detections))
              (processing_order all_detections)
              (Nat.le_refl _) (processing_order_sorted all_detections) k)
    as [Hin | (i & Hin & Hsup & HR)].
  - now apply processing_order_In.
  - left; apply in_map_iff; now exists k.
  - right; exists (nth i all_detections no_detection).
    split; [apply in_map_iff; now exists i |].
    rewrite !box_at_map in Hsup; split; [exact Hsup |].
    unfold considered_before in HR; rewrite !score_at_map in HR.
    destruct HR as [H | [H _]]; lra.
Qed.

Lemma merge_detections_drops_only_suppressed_witness :
  let l := [person 0 0 10 10 0.5; person 1 0 11 10 0.9] in
  In (person 0 0 10 10 0.5) l /\
  ~ In (person 0 0 10 10 0.5) (merge_detections l 0.4) /\
  exists d',
    In d' (merge_detections l 0.4) /\
    np_le (iou (bbox d') (bbox (person 0 0 10 10 0.5))) 0.4 = false.
Proof.
  intros l.
  assert (H : In (person 0 0 10 10 0.5) l) by (now left).
  assert (Hn : ~ In (person 0 0 10 10 0.5) (merge_detections l 0.4)).
  { vm_compute; intros [E | []]; discriminate E. }
  split; [exact H |]; split; [exact Hn |].
  destruct (merge_detections_drops_only_suppressed l 0.4 _ H)
    as [Hin | (d' & Hin & Hsup & _)]; [contradiction |].
  exists d'; split; assumption.
Defined.

End MergeMore.

(** ** Overlap of well-formed boxes *)

Section GeometryFacts.

Import Nms Geometry.

Lemma well_formed_spec (b : BBox) :
  well_formed b = true <-> x1 b <= x2 b /\ y1 b <= y2 b.
Proof. unfold well_formed; now rewrite andb_true_iff, !Qle_bool_iff. Qed.

Lemma one_pixel_spec (b : BBox) :
  one_pixel b = true <-> x1 b + 1 <= x2 b /\ y1 b + 1 <= y2 b.
Proof. unfold one_pixel; now rewrite andb_true_iff, !Qle_bool_iff. Qed.

(** The intersection of two well-formed boxes is no larger than either. *)
Lemma inter_area_bounds (a b : BBox) :
  well_formed a = true -> well_formed b = true ->
  0 <= inter_area a b /\ inter_area a b <= area a /\ inter_area a b <= area b.
Proof.
  intros Ha Hb; apply well_formed_spec in Ha, Hb.
  unfold inter_area, area.
  pose proof (Q.le_min_l (x2 a) (x2 b)); pose proof (Q.le_min_r (x2 a) (x2 b)).
  pose proof (Q.le_min_l (y2 a) (y2 b)); pose proof (Q.le_min_r (y2 a) (y2 b)).
  pose proof (Q.le_max_l (x1 a) (x1 b)); pose proof (Q.le_max_r (x1 a) (x1 b)).
  pose proof (Q.le_max_l (y1 a) (y1 b)); pose proof (Q.le_max_r (y1 a) (y1 b)).
  set (dx := Qmin (x2 a) (x2 b) - Qmax (x1 a) (x1 b)) in *.
  set (dy := Qmin (y2 a) (y2 b) - Qmax (y1 a) (y1 b)) in *.
  pose proof (Q.le_max_l 0 dx) as Hw0.
  pose proof (Q.le_max_l 0 dy) as Hh0.
  assert (Hwa : Qmax 0 dx <= x2 a - x1 a) by (apply Q.max_lub; unfold dx; lra).
  assert (Hwb : Qmax 0 dx <= x2 b - x1 b) by (apply Q.max_lub; unfold dx; lra).
  assert (Hha : Qmax 0 dy <= y2 a - y1 a) by (apply Q.max_lub; unfold dy; lra).
  assert (Hhb : Qmax 0 dy <= y2 b - y1 b) by (apply Q.max_lub; unfold dy; lra).
  set (w := Qmax 0 dx) in *; set (h := Qmax 0 dy) in *.
  repeat split; nra.
Qed.

Lemma iou_fin_range (a b : BBox) :
  well_formed a = true -> well_formed b = true ->
  exists q, iou a b = Fin q /\ 0 <= q /\ q < 1.
Proof.
  intros Ha Hb.
  destruct (inter_area_bounds a b Ha Hb) as (H0 & H1 & H2).
  unfold iou, np_div.
  set (i := inter_area a b) in *.
  set (den := area a + area b - i + 1e-6).
  assert (Hden : i < den)
    by (unfold den; change 1e-6 with (1 # 1000000); lra).
  destruct (Qeq_bool den 0) eqn:E; [apply Qeq_bool_iff in E; lra |].
  eexists; split; [reflexivity |]; split.
  - apply Qle_shift_div_l; lra.
  - apply Qlt_shift_div_r; lra.
Qed.

(** X11: for well-formed boxes the overlap is a number in [0, 1), never an
    infinity or [nan], and it does not depend on which of the two boxes is
    the kept one. *)
Theorem iou_of_well_formed_boxes (a b : BBox)
  (Ha : well_formed a = true) (Hb : well_formed b = true) :
  exists q q',
    iou a b = Fin q /\ iou b a = Fin q' /\ q == q' /\ 0 <= q /\ q < 1.
Proof.
  destruct (iou_fin_range a b Ha Hb) as (q & Hq & H0 & H1).
  destruct (iou_fin_range b a Hb Ha) as (q' & Hq' & _ & _).
  exists q, q'; repeat split; try assumption.
  pose proof (iou_sym a b) as H; now rewrite Hq, Hq' in H.
Qed.

Lemma iou_of_well_formed_boxes_witness :
  exists q q',
    iou {| x1 := 0; y1 := 0; x2 := 10; y2 := 10 |}
        {| x1 := 1; y1 := 0; x2 := 11; y2 := 10 |} = Fin q /\
    iou {| x1 := 1; y1 := 0; x2 := 11; y2 := 10 |}
        {| x1 := 0; y1 := 0; x2 := 10; y2 := 10 |} = Fin q' /\
    q == q' /\ 0 <= q /\ q < 1.
Proof. apply iou_of_well_formed_boxes; reflexivity. Defined.

(** A box of at least one pixel overlaps itself above every threshold up to
    0.99. *)
Lemma iou_self (b : BBox) (t : Q) :
  one_pixel b = true -> t <= 0.99 -> np_gt (iou b b) t = true.
Proof.
  intros Hb Ht; apply one_pixel_spec in Hb as [Hx Hy].
  assert (Hi : inter_area b b == area b).
  { unfold inter_area, area.
    rewrite !Q.min_id, !Q.max_id, !Q.max_r by lra; reflexivity. }
  assert (Ha : 1 <= area b) by (unfold area; nra).
  unfold iou, np_div.
  set (den := area b + area b - inter_area b b + 1e-6).
  assert (Hden : den == area b + (1 # 1000000))
    by (unfold den; change 1e-6 with (1 # 1000000); rewrite Hi; ring).
  destruct (Qeq_bool den 0) eqn:E; [apply Qeq_bool_iff in E; lra |].
  cbn [np_gt]; apply negb_true_iff.
  destruct (Qle_bool (inter_area b b / den) t) eqn:Q; [| reflexivity].
  apply Qle_bool_iff in Q; exfalso.
  assert (Hlt : t < inter_area b b / den); [| lra].
  apply Qlt_shift_div_l; [lra |].
  rewrite Hi, Hden.
  destruct (Qlt_le_dec t 0); nra.
Qed.

Lemma all_pairs_intro (p : Detection -> Detection -> bool) (l : list Detection) :
  (forall a b, In a l -> In b l -> p a b = true) -> all_pairs p l = true.
Proof.
  induction l as [| a l IH]; intros H; cbn [all_pairs]; [reflexivity |].
  rewrite IH by (intros x y Hx Hy; apply H; now right).
  rewrite andb_true_r; apply forallb_forall; intros b Hb.
  rewrite !H; try reflexivity; first [now left | now right].
Qed.

(** X12: at the ends of the threshold range the merger degenerates: from 1 on it
    keeps every well-formed detection, below 0 it keeps a single one. *)
Theorem merge_detections_threshold_extremes
  (all_detections : list Detection) (iou_threshold : Q)
  (Hwf : forallb (fun d => well_formed (bbox d)) all_detections = true) :
  (1 <= iou_threshold ->
   Permutation (merge_detections all_detections iou_threshold) all_detections) /\
  (iou_threshold < 0 -> all_detections <> [] ->
   exists d, merge_detections all_detections iou_threshold = [d]).
Proof.
  rewrite forallb_forall in Hwf.
  split.
  - intros Ht.
    assert (Hsep : pairwise_separated iou_threshold all_detections = true).
    { apply all_pairs_intro; intros a b Ha Hb.
      destruct (iou_fin_range (bbox a) (bbox b) (Hwf a Ha) (Hwf b Hb))
        as (q & -> & _ & Hq).
      cbn [np_le]; apply Qle_bool_iff; lra. }
    rewrite (merge_detections_of_separated _ _ Hsep).
    apply map_det_perm, processing_order_perm.
  - intros Ht Hne.
    assert (Hov : mutually_overlapping iou_threshold all_detections = true).
    { apply all_pairs_intro; intros a b Ha Hb.
      destruct (iou_fin_range (bbox a) (bbox b) (Hwf a Ha) (Hwf b Hb))
        as (q & -> & Hq & _).
      cbn [np_gt]; apply negb_true_iff.
      destruct (Qle_bool q iou_threshold) eqn:E; [| reflexivity].
      apply Qle_bool_iff in E; lra. }
    destruct (merge_detections_all_overlapping _ _ Hne Hov) as (i & _ & Hm & _).
    eexists; exact Hm.
Qed.

Lemma merge_detections_threshold_extremes_witness :
  let l := [person 0 0 10 10 0.5; person 1 0 11 10 0.9] in
  Permutation (merge_detections l 1) l /\
  exists d, merge_detections l (-1) = [d].
Proof.
  intros l.
  destruct (merge_detections_threshold_extremes l 1) as (H1 & _);
    [reflexivity |].
  destruct (merge_detections_threshold_extremes l (-1)) as (_ & H2);
    [reflexivity |].
  split; [apply H1; vm_compute; congruence |].
  apply H2; [reflexivity | discriminate].
Defined.

Lemma merge_detections_boxes_NoDup
  (all_detections : list Detection) (iou_threshold : Q) :
  iou_threshold <= 0.99 ->
  forallb (fun d => one_pixel (bbox d)) all_detections = true ->
  NoDup (map bbox (merge_detections all_detections iou_threshold)).
Proof.
  intros Hthr Hpix.
  set (merged := merge_detections all_detections iou_threshold).
  pose proof (merge_detections_separated all_detections iou_threshold) as Hsep.
  fold merged in Hsep.
  apply (NoDup_nth _ zero_box); rewrite length_map; intros i j Hi Hj E.
  destruct (Nat.eq_dec i j) as [| Hne]; [assumption | exfalso].
  change zero_box with (bbox no_detection) in E; rewrite !map_nth in E.
  pose proof (all_pairs_nth _ _ Hsep i j Hi Hj Hne) as Hle; cbn beta in Hle.
  rewrite <- E in Hle.
  assert (Hin : In (nth i merged no_detection) all_detections)
    by (apply (merge_detections_In _ iou_threshold), nth_In, Hi).
  rewrite forallb_forall in Hpix.
  pose proof (iou_self _ _ (Hpix _ Hin) Hthr) as Hgt.
  apply np_gt_not_le in Hgt; congruence.
Qed.

(** X13: the output never holds the same box twice: two output positions with
    one box of at least one pixel would overlap above the threshold.  So
    feeding every detection twice to the merger cannot double the count. *)
Theorem merge_detections_no_repeated_box
  (all_detections : list Detection) (iou_threshold : Q)
  (Hthr : iou_threshold <= 0.99)
  (Hpix : forallb (fun d => one_pixel (bbox d)) all_detections = true) :
  NoDup (map bbox (merge_detections all_detections iou_threshold)) /\
  (length (merge_detections (all_detections ++ all_detections) iou_threshold)
   <= length all_detections)%nat.
Proof.
  split; [now apply merge_detections_boxes_NoDup |].
  set (twice := all_detections ++ all_detections).
  assert (Hpix2 : forallb (fun d => one_pixel (bbox d)) twice = true)
    by (unfold twice; now rewrite forallb_app, Hpix).
  pose proof (merge_detections_boxes_NoDup twice _ Hthr Hpix2) as Hnd.
  rewrite <- (length_map bbox (merge_detections _ _)).
  rewrite <- (length_map bbox all_detections).
  apply NoDup_incl_length; [exact Hnd |].
  intros b Hb.
  apply in_map_iff in Hb as (d & <- & Hd).
  apply (merge_detections_In twice iou_threshold) in Hd.
  apply in_map; unfold twice in Hd; apply in_app_or in Hd; tauto.
Qed.

Lemma merge_detections_no_repeated_box_witness :
  let l := [person 0 0 10 10 0.5; person 0 0 10 10 0.5;
            person 100 100 110 110 0.7] in
  NoDup (map bbox (merge_detections l 0.4)).
Proof.
  intros l.
  destruct (merge_detections_no_repeated_box l 0.4) as (H & _);
    [vm_compute; congruence | reflexivity | exact H].
Defined.

End GeometryFacts.

(** ** Moving detections does not change what is merged *)

Section ShiftFacts.

Import Nms Geometry Pipeline.

Lemma np_le_div_compat (a a' b b' t : Q) :
  a == a' -> b == b' -> np_le (np_div a b) t = np_le (np_div a' b') t.
Proof.
  intros Ha Hb; pose proof (np_div_compat a a' b b' Ha Hb) as H.
  destruct (np_div a b), (np_div a' b'); cbn; try tauto; now rewrite H.
Qed.

Lemma area_shift (ox oy : Z) (b : BBox) : area (shift_box ox oy b) == area b.
Proof. unfold area, shift_box; cbn; ring. Qed.

Lemma inter_area_shift (ox oy : Z) (a b : BBox) :
  inter_area (shift_box ox oy a) (shift_box ox oy b) == inter_area a b.
Proof.
  unfold inter_area, shift_box; cbn [x1 y1 x2 y2].
  rewrite !Q.plus_max_distr_r, !Q.plus_min_distr_r.
  assert (E : forall m n d, m + d - (n + d) == m - n) by (intros; ring).
  now rewrite !E.
Qed.

Lemma iou_le_shift (ox oy : Z) (a b : BBox) (t : Q) :
  np_le (iou (shift_box ox oy a) (shift_box ox oy b)) t = np_le (iou a b) t.
Proof.
  unfold iou; apply np_le_div_compat.
  - apply inter_area_shift.
  - now rewrite !area_shift, inter_area_shift.
Qed.

(** The loop depends on the boxes only through the overlap tests between
    the positions of [order]. *)
Lemma nms_loop_ext (boxes1 boxes2 : list BBox) (t : Q) (fuel : nat)
  (order : list nat) :
  (forall i j, In i order -> In j order ->
     np_le (iou (box_at boxes1 i) (box_at boxes1 j)) t =
     np_le (iou (box_at boxes2 i) (box_at boxes2 j)) t) ->
  nms_loop boxes1 t fuel order = nms_loop boxes2 t fuel order.
Proof.
  revert order; induction fuel as [| fuel IH]; intros order H; cbn [nms_loop];
    [reflexivity |].
  destruct order as [| i [| r rest]]; [reflexivity | reflexivity |].
  f_equal.
  rewrite (filter_ext_in
             (fun j => np_le (iou (box_at boxes1 i) (box_at boxes1 j)) t)
             (fun j => np_le (iou (box_at boxes2 i) (box_at boxes2 j)) t))
    by (intros j Hj; apply H; [now left | now right]).
  apply IH; intros a b Ha Hb.
  apply filter_In in Ha as [Ha _], Hb as [Hb _].
  apply H; now right.
Qed.

Lemma nth_map_in_range {A B : Type} (f : A -> B) (l : list A) (i : nat)
  (da : A) (db : B) :
  (i < length l)%nat -> nth i (map f l) db = f (nth i l da).
Proof.
  intros Hi; rewrite (nth_indep _ db (f da)) by (now rewrite length_map).
  apply map_nth.
Qed.

(** X14: merging detections that were all moved by one offset gives the merged
    detections, moved: the merger sees only relative positions. *)
Theorem merge_detections_shift (ox oy : Z)
  (all_detections : list Detection) (iou_threshold : Q) :
  merge_detections (map (shift_detection ox oy) all_detections) iou_threshold =
  map (shift_detection ox oy) (merge_detections all_detections iou_threshold).
Proof.
  set (moved := map (shift_detection ox oy) all_detections).
  assert (Hord : processing_order moved = processing_order all_detections).
  { unfold processing_order, moved; rewrite map_map; reflexivity. }
  assert (Hkept : kept_indices moved iou_threshold
                  = kept_indices all_detections iou_threshold).
  { unfold kept_indices; rewrite Hord.
    apply nms_loop_ext; intros i j Hi Hj.
    apply processing_order_In in Hi, Hj.
    rewrite !box_at_map; unfold moved.
    rewrite !(nth_map_in_range _ _ _ no_detection) by assumption.
    apply iou_le_shift. }
  rewrite !merge_detections_eq, Hkept, map_map.
  apply map_ext_in; intros i Hi.
  apply kept_indices_lt in Hi.
  now apply nth_map_in_range.
Qed.

End ShiftFacts.

(** ** Confidence statistics *)

Section StatsFacts.

Import Stats.

Lemma fold_left_Qmin_le (cs : list Q) (c : Q) :
  fold_left Qmin cs c <= c /\ Forall (fun x => fold_left Qmin cs c <= x) cs.
Proof.
  revert c; induction cs as [| x cs IH]; intros c; cbn [fold_left].
  - split; [apply Qle_refl | constructor].
  - destruct (IH (Qmin c x)) as [H1 H2].
    pose proof (Q.le_min_l c x); pose proof (Q.le_min_r c x).
    split; [lra |].
    constructor; [lra | exact H2].
Qed.

Lemma fold_left_Qmax_ge (cs : list Q) (c : Q) :
  c <= fold_left Qmax cs c /\ Forall (fun x => x <= fold_left Qmax cs c) cs.
Proof.
  revert c; induction cs as [| x cs IH]; intros c; cbn [fold_left].
  - split; [apply Qle_refl | constructor].
  - destruct (IH (Qmax c x)) as [H1 H2].
    pose proof (Q.le_max_l c x); pose proof (Q.le_max_r c x).
    split; [lra |].
    constructor; [lra | exact H2].
Qed.

Lemma fold_left_Qmin_ge (cs : list Q) (c lo : Q) :
  lo <= c -> Forall (fun x => lo <= x) cs -> lo <= fold_left Qmin cs c.
Proof.
  revert c; induction cs as [| x cs IH]; intros c Hc H; cbn [fold_left];
    [exact Hc |].
  inversion H; subst; apply IH; [now apply Q.min_glb | assumption].
Qed.

Lemma fold_left_Qmax_le (cs : list Q) (c hi : Q) :
  c <= hi -> Forall (fun x => x <= hi) cs -> fold_left Qmax cs c <= hi.
Proof.
  revert c; induction cs as [| x cs IH]; intros c Hc H; cbn [fold_left];
    [exact Hc |].
  inversion H; subst; apply IH; [now apply Q.max_lub | assumption].
Qed.

Lemma fold_left_Qplus_bounds (l : list Q) (lo hi a : Q) :
  Forall (fun x => lo <= x /\ x <= hi) l ->
  a + inject_Z (Z.of_nat (length l)) * lo <= fold_left Qplus l a /\
  fold_left Qplus l a <= a + inject_Z (Z.of_nat (length l)) * hi.
Proof.
  revert a; induction l as [| x l IH]; intros a H; cbn [fold_left length].
  - change (inject_Z (Z.of_nat 0)) with 0; split; lra.
  - inversion H as [| ? ? [Hx1 Hx2] Hl]; subst.
    destruct (IH (a + x) Hl) as [H1 H2].
    rewrite Nat2Z.inj_succ; unfold Z.succ; rewrite inject_Z_plus.
    change (inject_Z 1) with 1.
    split; lra.
Qed.

(** X15: the three reported statistics are ordered, and they stay in [0, 1] when
    the confidences do. *)
Theorem confidence_stats_ordered (confidences : list Q) :
  let s := confidence_stats confidences in
  min_confidence s <= avg_confidence s /\
  avg_confidence s <= max_confidence s /\
  (Forall (fun c => 0 <= c /\ c <= 1) confidences ->
   0 <= min_confidence s /\ max_confidence s <= 1).
Proof.
  destruct confidences as [| c cs]; cbn zeta; unfold confidence_stats.
  { cbn; repeat split; intros; lra. }
  cbn [min_confidence max_confidence avg_confidence].
  set (l := c :: cs).
  destruct (fold_left_Qmin_le cs c) as [Hm1 Hm2].
  destruct (fold_left_Qmax_ge cs c) as [HM1 HM2].
  fold (py_min c cs) in Hm1, Hm2; fold (py_max c cs) in HM1, HM2.
  assert (Hall : Forall (fun x => py_min c cs <= x /\ x <= py_max c cs) l).
  { constructor; [split; assumption |].
    rewrite Forall_forall in *; intros x Hx; split; auto. }
  destruct (fold_left_Qplus_bounds l _ _ 0 Hall) as [Hs1 Hs2].
  fold (py_sum l) in Hs1, Hs2.
  set (n := inject_Z (Z.of_nat (length l))) in *.
  assert (Hn : 0 < n).
  { unfold n; change 0 with (inject_Z 0); rewrite <- Zlt_Qlt; cbn; lia. }
  repeat split.
  - apply py_round3_monotone, Qle_shift_div_l; [exact Hn | lra].
  - apply py_round3_monotone, Qle_shift_div_r; [exact Hn | lra].
  - inversion H as [| ? ? [Hc0 Hc1] Hcs]; subst.
    apply (Qle_trans _ (py_round3 0)); [vm_compute; congruence |].
    apply py_round3_monotone, fold_left_Qmin_ge; [exact Hc0 |].
    eapply Forall_impl; [| exact Hcs]; cbn; tauto.
  - inversion H as [| ? ? [Hc0 Hc1] Hcs]; subst.
    apply (Qle_trans _ (py_round3 1)); [| vm_compute; congruence].
    apply py_round3_monotone, fold_left_Qmax_le; [exact Hc1 |].
    eapply Forall_impl; [| exact Hcs]; cbn; tauto.
Qed.

Lemma confidence_stats_ordered_witness :
  let s := confidence_stats [0.9; 0.35; 0.62] in
  Forall (fun c => 0 <= c /\ c <= 1) [0.9; 0.35; 0.62] /\
  0 <= min_confidence s /\ max_confidence s <= 1.
Proof.
  intros s.
  assert (H : Forall (fun c => 0 <= c /\ c <= 1) [0.9; 0.35; 0.62])
    by (repeat constructor; vm_compute; congruence).
  split; [exact H |].
  destruct (confidence_stats_ordered [0.9; 0.35; 0.62]) as (_ & _ & Hr).
  exact (Hr H).
Defined.

End StatsFacts.

(** ** The explicit sort of [detect_beach_crowd] *)

Section SortFacts.

Import Nms Pipeline.

Lemma insert_desc_last (d : Detection) (l : list Detection) :
  Forall (fun e => confidence d <= confidence e) l ->
  insert_desc d l = l ++ [d].
Proof.
  induction 1 as [| e l He Hl IH]; cbn [insert_desc app]; [reflexivity |].
  apply Qle_bool_iff in He; now rewrite He, IH.
Qed.

Lemma descending_app_inv (l1 l2 : list Detection) (d : Detection) :
  confidence_descending (l1 ++ d :: l2) ->
  Forall (fun e => confidence d <= confidence e) l1.
Proof.
  unfold confidence_descending.
  induction l1 as [| a l1 IH]; cbn [app]; intros H; constructor.
  - inversion H as [| ? ? _ Ha]; subst.
    rewrite Forall_forall in Ha; apply Ha, in_elt.
  - apply IH; now inversion H.
Qed.

Lemma sort_descending_acc (l acc : list Detection) :
  confidence_descending (acc ++ l) ->
  fold_left (fun sorted d => insert_desc d sorted) l acc = acc ++ l.
Proof.
  revert acc; induction l as [| d l IH]; intros acc H; cbn [fold_left].
  - now rewrite app_nil_r.
  - rewrite (insert_desc_last d acc) by now apply (descending_app_inv acc l).
    rewrite IH; rewrite <- app_assoc; [reflexivity | exact H].
Qed.

(** Sorting a list that already descends changes nothing. *)
Lemma sort_by_confidence_descending (l : list Detection) :
  confidence_descending l -> sort_by_confidence l = l.
Proof. intros H; unfold sort_by_confidence; now rewrite sort_descending_acc. Qed.

(** X16: the sort that follows the final merge in [detect_beach_crowd] never
    moves a detection: the merged list is returned as it is. *)
Theorem sort_after_merge_is_identity
  (all_detections : list Detection) (iou_threshold : Q) :
  sort_by_confidence (merge_detections all_detections iou_threshold)
  = merge_detections all_detections iou_threshold.
Proof. apply sort_by_confidence_descending, merge_detections_descending. Qed.

End SortFacts.

(** ** Person statistics of [yolo-detector.py] *)

Section YoloStatsFacts.

Import Stats YoloStats.

Lemma three_buckets (l : list Q) :
  (length (filter (fun c => Qle_bool 0.7 c) l)
   + length (filter (fun c => Qle_bool 0.5 c && negb (Qle_bool 0.7 c)) l)
   + length (filter (fun c => negb (Qle_bool 0.5 c)) l) = length l)%nat.
Proof.
  induction l as [| c l IH]; cbn [filter length]; [reflexivity |].
  destruct (Qle_bool 0.7 c) eqn:E7, (Qle_bool 0.5 c) eqn:E5; cbn [negb andb length];
    try lia.
  apply Qle_bool_iff in E7; apply Qle_bool_false_lt in E5; lra.
Qed.

Lemma person_confidences_at_least (boxes : list YoloCli.Box) (t lo : Q) :
  lo <= t ->
  Forall (fun c => py_round3 lo <= c) (person_confidences boxes t).
Proof.
  intros Ht; unfold person_confidences.
  apply Forall_map, Forall_forall; intros b Hb.
  apply filter_In in Hb as [_ Hb]; apply andb_true_iff in Hb as [_ Hb].
  apply Qle_bool_iff in Hb; apply py_round3_monotone; lra.
Qed.

(** X17: the three buckets of the confidence distribution add up to the number
    of persons, which [detect_persons] reports as well.  With a threshold
    of at least 0.5 (the default) the "low" bucket is always empty, with one
    of at least 0.7 every person is in "high". *)
Theorem yolo_confidence_distribution (boxes : list YoloCli.Box)
  (confidence_threshold : Q) :
  let s := summarize boxes confidence_threshold in
  (high (distribution s) + medium (distribution s) + low (distribution s)
   = total_persons s)%nat /\
  (forall path_exists run_model image_path model_name,
     path_exists image_path = true ->
     run_model model_name image_path = Return boxes ->
     YoloCli.detect_persons path_exists run_model image_path model_name
       confidence_threshold = YoloCli.Success (total_persons s)) /\
  (0.5 <= confidence_threshold -> low (distribution s) = 0%nat) /\
  (0.7 <= confidence_threshold ->
   high (distribution s) = total_persons s /\ medium (distribution s) = 0%nat).
Proof.
  cbn zeta; unfold summarize.
  set (confs := person_confidences boxes confidence_threshold).
  pose proof (three_buckets confs) as H3.
  assert (Hlow : 0.5 <= confidence_threshold ->
                 filter (fun c => negb (Qle_bool 0.5 c)) confs = []).
  { intros Ht; apply filter_none; intros c Hc.
    pose proof (person_confidences_at_least boxes _ 0.5 Ht) as Hall.
    rewrite Forall_forall in Hall; specialize (Hall c Hc).
    apply negb_false_iff, Qle_bool_iff.
    apply (Qle_trans _ (py_round3 0.5)); [vm_compute; congruence | exact Hall]. }
  assert (Hmed : 0.7 <= confidence_threshold ->
                 filter (fun c => Qle_bool 0.5 c && negb (Qle_bool 0.7 c)) confs
                 = []).
  { intros Ht; apply filter_none; intros c Hc.
    pose proof (person_confidences_at_least boxes _ 0.7 Ht) as Hall.
    rewrite Forall_forall in Hall; specialize (Hall c Hc).
    assert (E : Qle_bool 0.7 c = true).
    { apply Qle_bool_iff.
      apply (Qle_trans _ (py_round3 0.7)); [vm_compute; congruence | exact Hall]. }
    rewrite E; apply andb_false_r. }
  destruct (0 <? length confs)%nat eqn:E;
    cbn [distribution total_persons high medium low confidence_distribution].
  - split; [exact H3 |]; split; [| split].
    + intros pe rm p m Hp Hr; unfold YoloCli.detect_persons.
      rewrite Hp, Hr; cbn [negb]; f_equal.
      unfold confs, person_confidences; now rewrite length_map.
    + intros Ht; now rewrite (Hlow Ht).
    + intros Ht.
      assert (Ht5 : 0.5 <= confidence_threshold) by lra.
      rewrite (Hlow Ht5), (Hmed Ht) in H3; rewrite (Hmed Ht); cbn in H3 |- *.
      lia.
  - apply Nat.ltb_ge in E.
    split; [lia |]; split; [| split; [reflexivity | intros; lia]].
    intros pe rm p m Hp Hr; unfold YoloCli.detect_persons.
    rewrite Hp, Hr; cbn [negb]; f_equal.
    unfold confs, person_confidences; now rewrite length_map.
Qed.

Lemma yolo_confidence_distribution_witness :
  let boxes := [ {| YoloCli.cls := 0; YoloCli.conf := 0.91 |};
                 {| YoloCli.cls := 0; YoloCli.conf := 0.55 |};
                 {| YoloCli.cls := 2; YoloCli.conf := 0.80 |};
                 {| YoloCli.cls := 0; YoloCli.conf := 0.30 |} ] in
  0.5 <= 0.5 /\
  total_persons (summarize boxes 0.5) = 2%nat /\
  low (distribution (summarize boxes 0.5)) = 0%nat.
Proof.
  intros boxes.
  assert (H : 0.5 <= 0.5) by (vm_compute; congruence).
  split; [exact H |]; split; [reflexivity |].
  destruct (yolo_confidence_distribution boxes 0.5) as (_ & _ & Hlow & _).
  exact (Hlow H).
Defined.

End YoloStatsFacts.

(** ** Detection pipelines *)

Section PipelineFacts.

Import Nms Tiling Stats Geometry Pipeline.

Variable imread : string -> option (Z * Z).
Variable detect_slice : string -> Tile -> list RawBox.
Variable detect_image : string -> list RawBox.

Lemma default_slicing_returns (h w : Z) :
  exists slices, slice_image h w 640 0.25 = Return slices.
Proof.
  eexists; apply slice_image_nonzero_stride; vm_compute; discriminate.
Qed.

(** Tiles of a walk with positive stride lie inside the image. *)
Lemma slice_image_tiles_inside (h w slice_size : Z) (overlap : Q)
  (slices : list Tile) (s : Tile) :
  (1 <= w)%Z -> (1 <= h)%Z -> (0 < slice_size)%Z ->
  (1 <= stride_of slice_size overlap)%Z ->
  slice_image h w slice_size overlap = Return slices -> In s slices ->
  (0 <= x_start s <= x_end s)%Z /\ (x_end s <= w)%Z /\
  (0 <= y_start s <= y_end s)%Z /\ (y_end s <= h)%Z.
Proof.
  intros Hw Hh Hsize Hstride Hs Hin.
  rewrite slice_image_positive_stride in Hs by assumption.
  injection Hs as <-.
  apply in_flat_map in Hin as (y & Hy & Hin).
  apply in_map_iff in Hin as (x & <- & Hx).
  apply steps_nonneg in Hx, Hy; try assumption.
  pose proof (make_tile_extent w h slice_size x y Hsize Hw Hh Hx Hy) as He.
  cbn zeta in He; lia.
Qed.

(** X18: a box that the detector reports inside a slice is, once moved back by
    the slice offset, a well-formed box inside the image. *)
Theorem slice_detection_inside_image (h w slice_size : Z) (overlap : Q)
  (slices : list Tile) (s : Tile) (label : string) (r : RawBox)
  (Hw : (1 <= w)%Z) (Hh : (1 <= h)%Z) (Hsize : (0 < slice_size)%Z)
  (Hstride : (1 <= stride_of slice_size overlap)%Z)
  (Hslices : slice_image h w slice_size overlap = Return slices)
  (Hs : In s slices)
  (Hx : 0 <= x1 (xyxy r) /\ x1 (xyxy r) <= x2 (xyxy r)
        /\ x2 (xyxy r) <= inject_Z (x_end s - x_start s))
  (Hy : 0 <= y1 (xyxy r) /\ y1 (xyxy r) <= y2 (xyxy r)
        /\ y2 (xyxy r) <= inject_Z (y_end s - y_start s)) :
  inside h w (bbox (slice_detection label s r)) = true /\
  well_formed (bbox (slice_detection label s r)) = true.
Proof.
  destruct (slice_image_tiles_inside h w slice_size overlap slices s
              Hw Hh Hsize Hstride Hslices Hs) as (Hx0 & Hx1 & Hy0 & Hy1).
  destruct Hx as (Ha & Hb & Hc), Hy as (Hd & He & Hf).
  unfold Z.sub in Hc, Hf; rewrite inject_Z_plus, inject_Z_opp in Hc, Hf.
  assert (Qx0 : 0 <= inject_Z (x_start s))
    by (change 0 with (inject_Z 0); rewrite <- Zle_Qle; lia).
  assert (Qy0 : 0 <= inject_Z (y_start s))
    by (change 0 with (inject_Z 0); rewrite <- Zle_Qle; lia).
  assert (Qx1 : inject_Z (x_end s) <= inject_Z w) by (now rewrite <- Zle_Qle).
  assert (Qy1 : inject_Z (y_end s) <= inject_Z h) by (now rewrite <- Zle_Qle).
  unfold inside, well_formed, slice_detection, shift_box;
    cbn [bbox x1 y1 x2 y2].
  rewrite !andb_true_iff, !Qle_bool_iff.
  repeat split; lra.
Qed.

Lemma slice_detection_inside_image_witness :
  let s := {| x_start := 1920; y_start := 800; x_end := 2560; y_end := 1440 |} in
  let r := {| xyxy := {| x1 := 600; y1 := 610; x2 := 640; y2 := 640 |};
              conf := 0.4 |} in
  inside 1440 2560 (bbox (slice_detection "person" s r)) = true.
Proof.
  intros s r.
  destruct (default_slicing_returns 1440 2560) as (slices & Hslices).
  assert (Hs : In s slices).
  { vm_compute in Hslices; injection Hslices as <-.
    repeat (first [left; reflexivity | right]). }
  destruct (slice_detection_inside_image 1440 2560 640 0.25 slices s
              "person" r) as (H & _);
    first [lia | assumption | vm_compute; intuition congruence | exact H].
Defined.

Lemma detect_beach_crowd_loaded (image_path : string) (use_slicing : bool)
  (h w : Z) :
  imread image_path = Some (h, w) ->
  exists first_pass,
    detect_beach_crowd imread detect_slice detect_image image_path use_slicing =
    Return (Success (summarize
      (merge_detections
         (first_pass
          ++ map (image_detection "person") (detect_image image_path)) 0.4))) /\
    (use_slicing && large_image h w = false ->
     first_pass = map (image_detection "person") (detect_image image_path)) /\
    (forall d, In d first_pass -> class_label d = "person"%string) /\
    (use_slicing && large_image h w = true ->
     exists slices,
       slice_image h w 640 0.25 = Return slices /\
       first_pass =
         merge_detections
           (flat_map (fun s => map (slice_detection "person" s)
                                   (detect_slice image_path s)) slices) 0.4).
Proof.
  intros Him; unfold detect_beach_crowd; rewrite Him.
  destruct (use_slicing && large_image h w).
  - destruct (default_slicing_returns h w) as (slices & Hs).
    rewrite Hs; cbn [bind].
    eexists; split; [| split; [discriminate | split]].
    + now rewrite sort_by_confidence_descending
        by apply merge_detections_descending.
    + intros d Hd; apply merge_detections_In, in_flat_map in Hd
        as (s & _ & Hd).
      now apply in_map_iff in Hd as (r & <- & _).
    + intros _; now exists slices.
  - cbn [bind].
    eexists; split; [| split; [reflexivity | split; [| discriminate]]].
    + now rewrite sort_by_confidence_descending
        by apply merge_detections_descending.
    + intros d Hd; now apply in_map_iff in Hd as (r & <- & _).
Qed.


(** X20: on an image that is not sliced the detector answer enters the final
    merge twice, yet no box of at least one pixel is counted twice: the
    total never exceeds the number of boxes the detector found. *)
Theorem detect_beach_crowd_unsliced_count (image_path : string)
  (use_slicing : bool) (h w : Z)
  (Him : imread image_path = Some (h, w))
  (Hsmall : use_slicing && large_image h w = false)
  (Hpix : forallb (fun r => one_pixel (xyxy r)) (detect_image image_path)
          = true) :
  let found := map (image_detection "person") (detect_image image_path) in
  exists s,
    detect_beach_crowd imread detect_slice detect_image image_path use_slicing
    = Return (Success s) /\
    persons s = merge_detections (found ++ found) 0.4 /\
    (total_persons s <= length (detect_image image_path))%nat.
Proof.
  intros found.
  destruct (detect_beach_crowd_loaded image_path use_slicing h w Him)
    as (first_pass & -> & Hfirst & _).
  rewrite (Hfirst Hsmall); fold found.
  eexists; split; [reflexivity |]; cbn [persons total_persons summarize].
  split; [reflexivity |].
  rewrite <- (length_map (image_detection "person") (detect_image image_path)).
  fold found.
  rewrite <- (length_map bbox (merge_detections _ _)).
  rewrite <- (length_map bbox found).
  apply NoDup_incl_length.
  - apply merge_detections_boxes_NoDup; [vm_compute; congruence |].
    rewrite forallb_app.
    assert (E : forallb (fun d => one_pixel (bbox d)) found = true).
    { unfold found; rewrite forallb_forall in *; intros d Hd.
      apply in_map_iff in Hd as (r & <- & Hr); now apply Hpix. }
    now rewrite E.
  - intros b Hb; apply in_map_iff in Hb as (d & <- & Hd).
    apply merge_detections_In, in_app_or in Hd; apply in_map; tauto.
Qed.

End PipelineFacts.

(** ** Command lines of [beach-detector.py] and [pi-detector.py] *)

Section MainFacts.

Import Nms Tiling Stats Geometry Pipeline.

Variable imread : string -> option (Z * Z).
Variable detect_slice : string -> Tile -> list RawBox.
Variable detect_image : string -> list RawBox.
Variable mktemp : string.
Variable run_ffmpeg : string -> string -> RunOutcome.
Variable path_exists : string -> bool.



Lemma detect_loaded (image_path : string) (use_slicing : bool) (h w : Z) :
  imread image_path = Some (h, w) ->
  exists tile_detections,
    detect imread detect_slice detect_image image_path use_slicing =
    Return (Success (summarize
      (pi_final_detections (use_slicing && large_image h w) tile_detections
         (map (image_detection EmptyString) (detect_image image_path))))).
Proof.
  intros Him; unfold detect, pi_final_detections; rewrite Him.
  destruct (use_slicing && large_image h w).
  - destruct (default_slicing_returns h w) as (slices & Hs).
    unfold SLICE_SIZE, SLICE_OVERLAP; rewrite Hs; cbn [bind].
    eexists; reflexivity.
  - cbn [bind]; exists []; reflexivity.
Qed.

(** X22: [detect] of [pi-detector.py] on an image that loads: it succeeds, the
    list behind its count descends in confidence and has no pair overlapping
    above 0.4, and without slicing the count is at most the number of boxes
    the detector found. *)
Theorem detect_counts_merged_boxes (image_path : string) (use_slicing : bool)
  (h w : Z) (Him : imread image_path = Some (h, w)) :
  exists s,
    detect imread detect_slice detect_image image_path use_slicing
    = Return (Success s) /\
    total_persons s = length (persons s) /\
    confidence_descending (persons s) /\
    pairwise_separated 0.4 (persons s) = true /\
    (use_slicing && large_image h w = false ->
     (total_persons s <= length (detect_image image_path))%nat).
Proof.
  destruct (detect_loaded image_path use_slicing h w Him) as (tiles & ->).
  eexists; split; [reflexivity |]; cbn [persons total_persons summarize].
  unfold pi_final_detections, nms_merge.
  split; [reflexivity |].
  split; [apply merge_detections_descending |].
  split; [apply merge_detections_separated |].
  intros ->; cbn [app].
  rewrite <- (length_map (image_detection EmptyString) (detect_image image_path)).
  apply merge_detections_length_le.
Qed.

(** X23: without --capture and with an image argument, [pi-detector.py] has three
    outcomes: an image that does not load is reported as a failure with
    exit status 0; an image that loads is scored and reported with exit
    status 0 when the beach area is positive, the score lying in [0, 100];
    and with a beach area of 0 the scoring raises ZeroDivisionError after the
    detection has succeeded. *)
Theorem pi_main_outcomes (args : PiArgs) (image_path : string)
  (Hmode : capture args = false)
  (Himage : given (image args) = Some image_path) :
  let run := pi_main imread detect_slice detect_image mktemp run_ffmpeg
                     path_exists args in
  (imread image_path = None ->
   let error := ("Could not load image: " ++ image_path)%string in
   run = Return (if json args then JsonDump (Failure error) None
                 else ErrorLine error, 0%Z)) /\
  (imread image_path <> None -> beach_area args == 0 ->
   run = Raise "ZeroDivisionError") /\
  (imread image_path <> None -> 0 < beach_area args ->
   exists s b,
     run = Return (if json args then JsonDump (Success s) (Some b)
                   else Report s (Some b), 0%Z) /\
     Busyness.calculate_busyness (Z.of_nat (total_persons s)) (beach_area args)
       = Return b /\
     (0 <= Busyness.score b <= 100)%Z).
Proof.
  cbn zeta; unfold pi_main; rewrite Hmode, Himage; unfold analyze.
  split; [| split].
  - intros Him; unfold detect; rewrite Him; cbn [bind].
    destruct (json args); reflexivity.
  - intros Him Harea.
    destruct (imread image_path) as [[h w] |] eqn:E; [| congruence].
    destruct (detect_loaded image_path (negb (no_slicing args)) h w E)
      as (tiles & ->); cbn [bind].
    unfold Busyness.calculate_busyness.
    apply Qeq_bool_iff in Harea; rewrite Harea; reflexivity.
  - intros Him Harea.
    destruct (imread image_path) as [[h w] |] eqn:E; [| congruence].
    destruct (detect_loaded image_path (negb (no_slicing args)) h w E)
      as (tiles & ->); cbn [bind].
    set (s := summarize _).
    rewrite calculate_busyness_value by lra; cbn [bind].
    do 2 eexists; split; [destruct (json args); reflexivity |].
    split; [apply calculate_busyness_value; lra |]; cbn [Busyness.score].
    apply score_level_bounds, density_nonneg; [lia | exact Harea].
Qed.

(** X24: with --capture the image argument is not used: without a stream URL the
    program exits with status 1 and prints nothing, a capture that fails
    (ffmpeg missing, timed out, non-zero return code or no output file)
    exits with status 1 after printing the failure, and a capture that
    succeeds is analysed from the captured file. *)
Theorem pi_main_capture (args : PiArgs) (Hmode : capture args = true) :
  let run := pi_main imread detect_slice detect_image mktemp run_ffmpeg
                     path_exists args in
  let output_path :=
    match output args with None => mktemp | Some p => p end in
  (given (stream args) = None -> run = Return (Silent, 1%Z)) /\
  (forall stream_url, given (stream args) = Some stream_url ->
     (run_ffmpeg stream_url output_path <> Completed 0
      \/ path_exists output_path = false ->
      exists out, run = Return (out, 1%Z)) /\
     (run_ffmpeg stream_url output_path = Completed 0 ->
      path_exists output_path = true -> output_path <> EmptyString ->
      run = analyze imread detect_slice detect_image output_path args)).
Proof.
  cbn zeta; unfold pi_main; rewrite Hmode.
  split; [intros ->; reflexivity |].
  intros url ->; unfold capture_hls_frame.
  set (p := match output args with None => mktemp | Some p => p end).
  split.
  - intros Hfail.
    assert (E : match run_ffmpeg url p with
                | Completed returncode =>
                  if (returncode =? 0)%Z && path_exists p then Some p else None
                | TimeoutExpired => None
                | FileNotFoundError => None
                end = None).
    { destruct (run_ffmpeg url p) as [rc | |]; try reflexivity.
      destruct (Z.eqb_spec rc 0) as [-> | Hrc]; [| reflexivity].
      destruct Hfail as [Hf | Hf]; [congruence | now rewrite Hf]. }
    rewrite E; destruct (json args); eexists; reflexivity.
  - intros Hrun Hex Hne; rewrite Hrun, Hex; cbn [Z.eqb andb].
    destruct p; [congruence | reflexivity].
Qed.

End MainFacts.

Lemma detect_beach_crowd_unsliced_count_witness :
  let imread := fun _ : string => Some (720, 1280)%Z in
  let detect_slice := fun (_ : string) (_ : Tiling.Tile) =>
                        @nil Pipeline.RawBox in
  let detect_image := fun _ : string =>
    [ {| Pipeline.xyxy := {| Nms.x1 := 10; Nms.y1 := 20; Nms.x2 := 40;
                             Nms.y2 := 90 |}; Pipeline.conf := 0.8 |};
      {| Pipeline.xyxy := {| Nms.x1 := 300; Nms.y1 := 200; Nms.x2 := 330;
                             Nms.y2 := 280 |}; Pipeline.conf := 0.6 |} ] in
  exists s,
    Pipeline.detect_beach_crowd imread detect_slice detect_image "beach.jpg" true
    = Return (Pipeline.Success s) /\
    (Pipeline.total_persons s <= 2)%nat.
Proof.
  intros imread detect_slice detect_image.
  destruct (detect_beach_crowd_unsliced_count imread detect_slice detect_image
              "beach.jpg" true 720 1280) as (s & Hs & _ & Hn);
    [reflexivity | reflexivity | reflexivity |].
  exists s; split; [exact Hs | exact Hn].
Defined.

Lemma detect_counts_merged_boxes_witness :
  let imread := fun _ : string => Some (720, 1280)%Z in
  let detect_slice := fun (_ : string) (_ : Tiling.Tile) =>
                        @nil Pipeline.RawBox in
  let detect_image := fun _ : string =>
    [ {| Pipeline.xyxy := {| Nms.x1 := 10; Nms.y1 := 20; Nms.x2 := 40;
                             Nms.y2 := 90 |}; Pipeline.conf := 0.8 |} ] in
  exists s,
    Pipeline.detect imread detect_slice detect_image "beach.jpg" true
    = Return (Pipeline.Success s) /\
    (Pipeline.total_persons s <= 1)%nat.
Proof.
  intros imread detect_slice detect_image.
  destruct (detect_counts_merged_boxes imread detect_slice detect_image
              "beach.jpg" true 720 1280) as (s & Hs & _ & _ & _ & Hn);
    [reflexivity |].
  exists s; split; [exact Hs | apply Hn; reflexivity].
Defined.

Lemma pi_main_outcomes_witness :
  let imread := fun _ : string => Some (720, 1280)%Z in
  let detect_slice := fun (_ : string) (_ : Tiling.Tile) =>
                        @nil Pipeline.RawBox in
  let detect_image := fun _ : string => @nil Pipeline.RawBox in
  let run_ffmpeg := fun _ _ : string => Pipeline.FileNotFoundError in
  let args := {| Pipeline.image := Some "beach.jpg"%string;
                 Pipeline.capture := false; Pipeline.stream := None;
                 Pipeline.output := None; Pipeline.beach_area := 0;
                 Pipeline.no_slicing := false; Pipeline.json := true |} in
  Pipeline.pi_main imread detect_slice detect_image "frame.jpg" run_ffmpeg
    (fun _ => false) args = Raise "ZeroDivisionError".
Proof.
  intros imread detect_slice detect_image run_ffmpeg args.
  destruct (pi_main_outcomes imread detect_slice detect_image "frame.jpg"
              run_ffmpeg (fun _ => false) args "beach.jpg")
    as (_ & Hzero & _); [reflexivity | reflexivity |].
  apply Hzero; [discriminate | reflexivity].
Defined.

Lemma pi_main_capture_witness :
  let imread := fun _ : string => Some (720, 1280)%Z in
  let detect_slice := fun (_ : string) (_ : Tiling.Tile) =>
                        @nil Pipeline.RawBox in
  let detect_image := fun _ : string => @nil Pipeline.RawBox in
  let run_ffmpeg := fun _ _ : string => Pipeline.TimeoutExpired in
  let args := {| Pipeline.image := Some "beach.jpg"%string;
                 Pipeline.capture := true;
                 Pipeline.stream := Some "https://cam/stream.m3u8"%string;
                 Pipeline.output := None; Pipeline.beach_area := 5000;
                 Pipeline.no_slicing := false; Pipeline.json := true |} in
  exists out,
    Pipeline.pi_main imread detect_slice detect_image "frame.jpg" run_ffmpeg
      (fun _ => true) args = Return (out, 1%Z).
Proof.
  intros imread detect_slice detect_image run_ffmpeg args.
  destruct (pi_main_capture imread detect_slice detect_image "frame.jpg"
              run_ffmpeg (fun _ => true) args) as (_ & Hurl); [reflexivity |].
  destruct (Hurl "https://cam/stream.m3u8"%string) as (Hfail & _);
    [reflexivity |].
  apply Hfail; left; discriminate.
Defined.

